(** * pt_device_monitor: a shallow embedding of the session client, the
    grouping engine and the layout engine, with the properties of the
    specification stated and proved over it.

    Go strings are byte sequences.  Where the code slices, measures or
    pattern-matches a string (the layout engine), a string is a
    [list ascii]; where it only compares and concatenates (identifiers,
    cookie names, error messages), it is a [string].  Go's [int] is a
    64-bit integer, modelled in [Z] with the wrap-around written where the
    code computes with it. *)

From Stdlib Require Import ZArith Ascii String.
From stdpp Require Import base option list strings pretty gmap fin_maps.

Open Scope Z_scope.

(* ===================================================================== *)
(** * Layout engine: ANSI-aware width and truncation *)
(* ===================================================================== *)

Abbreviation bytes := (list ascii).

Definition bytes_of (s : string) : bytes := list_ascii_of_string s.

(** [len(s)] of Go: the number of bytes. *)
Definition len (s : bytes) : Z := Z.of_nat (length s).

Definition ESC : ascii := "027"%char.

Definition ColorReset : bytes := ESC :: bytes_of "[0m".
Definition ColorRed : bytes := ESC :: bytes_of "[31m".
Definition ColorGreen : bytes := ESC :: bytes_of "[32m".

(** ** The regular expression [\033\[[0-9;]*[a-zA-Z]] *)

Definition isESC (c : ascii) : bool := (N_of_ascii c =? 27)%N.
Definition isLBracket (c : ascii) : bool := (N_of_ascii c =? 91)%N.

(** The class [[0-9;]]. *)
Definition isParam (c : ascii) : bool :=
  ((48 <=? N_of_ascii c) && (N_of_ascii c <=? 57) || (N_of_ascii c =? 59))%N.

(** The class [[a-zA-Z]]. *)
Definition isLetter (c : ascii) : bool :=
  ((65 <=? N_of_ascii c) && (N_of_ascii c <=? 90)
   || (97 <=? N_of_ascii c) && (N_of_ascii c <=? 122))%N.

(** Length of the prefix of [s] matched by [[0-9;]*[a-zA-Z]], if any.  The
    two classes are disjoint, so the greedy star has one way to match. *)
Fixpoint paramsLetter (s : bytes) : option nat :=
  match s with
  | [] => None
  | c :: s' =>
      if isParam c then S <$> paramsLetter s'
      else if isLetter c then Some 1%nat
      else None
  end.

(** Length of the match of the whole expression anchored at the head of
    [s], if there is one. *)
Definition ansiMatchAt (s : bytes) : option nat :=
  match s with
  | e :: b :: s' =>
      if isESC e && isLBracket b then (fun n => S (S n)) <$> paramsLetter s'
      else None
  | _ => None
  end.

(** One left-to-right pass of the matcher over [s], as regexp's
    [FindAll...] family does it: at each position not inside a previous
    match, try the expression there; a match is taken whole and the scan
    resumes behind it.  [skip] counts the bytes of the current match still
    to be passed over.  The result lists, in order, every unmatched byte
    ([inl]) and every match ([inr]). *)
Fixpoint scan (skip : nat) (s : bytes) : list (ascii + bytes) :=
  match s with
  | [] => []
  | c :: s' =>
      match skip with
      | S k => scan k s'
      | O =>
          match ansiMatchAt s with
          | Some n => inr (take n s) :: scan (pred n) s'
          | None => inl c :: scan 0 s'
          end
      end
  end.

Definition unmatched (t : ascii + bytes) : option ascii :=
  match t with inl c => Some c | inr _ => None end.

Definition matched (t : ascii + bytes) : option bytes :=
  match t with inl _ => None | inr m => Some m end.

(** [ansiRegex.ReplaceAllString] of [s] with the empty replacement: the
    unmatched bytes. *)
Definition ReplaceAllString_empty (s : bytes) : bytes :=
  omap unmatched (scan 0 s).

(** [ansiRegex.FindAllString(s, -1)]: the matches. *)
Definition FindAllString (s : bytes) : list bytes :=
  omap matched (scan 0 s).

(** The runs of unmatched bytes between the matches, empty runs included. *)
Fixpoint runs (ts : list (ascii + bytes)) : list bytes :=
  match ts with
  | [] => [[]]
  | inl c :: ts' =>
      match runs ts' with
      | p :: ps => (c :: p) :: ps
      | [] => [[c]]
      end
  | inr _ :: ts' => [] :: runs ts'
  end.

(** [ansiRegex.Split(s, -1)].  Every match of this expression is non-empty,
    so [Split] returns the text before each match and the text after the
    last one (possibly empty); for the empty string it returns one empty
    part. *)
Definition Split (s : bytes) : list bytes := runs (scan 0 s).

(** ** [utf8.RuneCountInString] *)

(** The table [first] of unicode/utf8: for a leading byte, the length of
    the encoding and the range accepted for the second byte; [None] for
    the bytes that cannot start a multi-byte encoding. *)
Definition first (c : N) : option (nat * (N * N)) :=
  (if c <? 0xC2 then None
   else if c <=? 0xDF then Some (2%nat, (0x80, 0xBF))
   else if c =? 0xE0 then Some (3%nat, (0xA0, 0xBF))
   else if c <=? 0xEC then Some (3%nat, (0x80, 0xBF))
   else if c =? 0xED then Some (3%nat, (0x80, 0x9F))
   else if c <=? 0xEF then Some (3%nat, (0x80, 0xBF))
   else if c =? 0xF0 then Some (4%nat, (0x90, 0xBF))
   else if c <=? 0xF3 then Some (4%nat, (0x80, 0xBF))
   else if c =? 0xF4 then Some (4%nat, (0x80, 0x8F))
   else None)%N.

Definition inRange (lo hi : N) (c : ascii) : bool :=
  ((lo <=? N_of_ascii c) && (N_of_ascii c <=? hi))%N.

(** Number of bytes the rune at the head of [s] takes: an invalid or short
    encoding counts as one rune of width 1. *)
Definition runeSize (s : bytes) : nat :=
  match s with
  | [] => 1%nat
  | c :: s' =>
      if (N_of_ascii c <? 0x80)%N then 1%nat
      else match first (N_of_ascii c) with
           | None => 1%nat
           | Some (size, (lo, hi)) =>
               if (length s <? size)%nat then 1%nat
               else match s' with
                    | c1 :: s1 =>
                        if negb (inRange lo hi c1) then 1%nat
                        else if (size =? 2)%nat then 2%nat
                        else match s1 with
                             | c2 :: s2 =>
                                 if negb (inRange 0x80 0xBF c2) then 1%nat
                                 else if (size =? 3)%nat then 3%nat
                                 else match s2 with
                                      | c3 :: _ =>
                                          if negb (inRange 0x80 0xBF c3)
                                          then 1%nat else 4%nat
                                      | [] => 1%nat
                                      end
                             | [] => 1%nat
                             end
                    | [] => 1%nat
                    end
           end
  end.

(** The counting loop: [skip] is the number of bytes of the current rune
    still to be passed over. *)
Fixpoint runeCount (skip : nat) (s : bytes) : nat :=
  match s with
  | [] => 0%nat
  | _ :: s' =>
      match skip with
      | S k => runeCount k s'
      | O => S (runeCount (pred (runeSize s)) s')
      end
  end.

Definition RuneCountInString (s : bytes) : Z := Z.of_nat (runeCount 0 s).

(** ** [displayWidth], [stripColors], [truncateString] *)

Definition displayWidth (s : bytes) : Z :=
  let cleanString := ReplaceAllString_empty s in
  RuneCountInString cleanString.

Definition stripColors (s : bytes) : bytes := ReplaceAllString_empty s.

(** [s[:n]]: a run-time panic ([None]) unless [0 <= n <= len(s)]. *)
Definition slice_to (s : bytes) (n : Z) : option bytes :=
  if (0 <=? n) && (n <=? len s) then Some (take (Z.to_nat n) s) else None.

(** The loop of [truncateString] over [textParts]; the result is what the
    loop writes to the builder, [None] if a slice panics. *)
Fixpoint truncate_loop (textParts colorCodes : list bytes)
    (colorIndex : nat) (textLen targetLen : Z) : option bytes :=
  match textParts with
  | [] => Some []
  | part :: rest =>
      if targetLen <=? textLen then Some []
      else
        let remaining := targetLen - textLen in
        if len part <=? remaining then
          match colorCodes !! colorIndex with
          | Some code =>
              tail ← truncate_loop rest colorCodes (S colorIndex)
                       (textLen + len part) targetLen;
              Some (part ++ code ++ tail)
          | None =>
              tail ← truncate_loop rest colorCodes colorIndex
                       (textLen + len part) targetLen;
              Some (part ++ tail)
          end
        else slice_to part remaining
  end.

Definition truncateString (s : bytes) (maxLen : Z) : option bytes :=
  let displayLen := displayWidth s in
  if displayLen <=? maxLen then Some s
  else if maxLen <=? 3 then
    let clean := stripColors s in
    if len clean <=? maxLen then Some clean
    else slice_to clean maxLen
  else
    let clean := stripColors s in
    if len clean <=? maxLen - 3 then Some s
    else
      let colorCodes := FindAllString s in
      let textParts := Split s in
      let targetLen := maxLen - 3 in
      result ← truncate_loop textParts colorCodes 0 0 targetLen;
      Some (result ++ bytes_of "..." ++ ColorReset).

(* ===================================================================== *)
(** * Data model *)
(* ===================================================================== *)

Record VirtualContext := {
  vc_ID : string;
  vc_Name : string;
  vc_IsDefault : bool
}.

Record LogicalDevice := {
  ld_ID : string;
  ld_Name : string;
  ld_TopologyType : string;
  ld_VirtualContexts : list VirtualContext
}.

Record AsNode := {
  SyncLinkIP : string;
  SyncLinkPort : Z;
  Priority : Z;
  Role : string;
  SuspendMode : string
}.

Record PhysicalDevice := {
  pd_ID : string;
  pd_LogicalDevice : LogicalDevice;
  pd_Name : string;
  pd_Description : string;
  pd_Model : string;
  pd_SerialNumber : string;
  pd_ConnectionState : string;
  pd_Address : string;
  pd_AddressType : string;
  pd_LastConnectedAt : string;
  pd_CreatedAt : string;
  pd_UpdatedAt : string;
  pd_AsNode : option AsNode;
  pd_SoftwareVersion : string;
  pd_TopologyType : string;
  pd_HealthStatus : string;
  pd_ConfigurationStatus : string;
  pd_ProductVersion : string;
  pd_LogicalDeviceChange : string
}.

Record APIResponse := {
  PhysicalDevices : list PhysicalDevice;
  Total : Z
}.

(** [time.Time] and [time.Duration], both in nanoseconds. *)
Definition Time := Z.
Definition Duration := Z.

Record Config := {
  BaseURL : string;
  APIEndpoint : string;
  PollInterval : Duration;
  RequestTimeout : Duration;
  ShowTimestamp : bool;
  ColorOutput : bool;
  Username : string;
  Password : string
}.

(** [ActiveNode] is a pointer into the group's own [PhysicalDevices]; the
    model keeps the device it points to. *)
Record LogicalDeviceGroup := {
  grp_LogicalDevice : LogicalDevice;
  grp_PhysicalDevices : list PhysicalDevice;
  IsCluster : bool;
  ActiveNode : option PhysicalDevice;
  StandbyNodes : list PhysicalDevice
}.

Record GroupedDevices := {
  LogicalDeviceGroups : list LogicalDeviceGroup;
  TotalDevices : Z;
  LastUpdated : Time
}.

(* ===================================================================== *)
(** * Grouping engine *)
(* ===================================================================== *)

Definition len_devices (l : list PhysicalDevice) : Z := Z.of_nat (length l).

Definition logicalID (device : PhysicalDevice) : string :=
  ld_ID (pd_LogicalDevice device).

(** One round of the first loop of [GroupDevicesByLogicalDevice]:
    [groupMap] is the Go map from logical-device id to group. *)
Definition addDevice (groupMap : gmap string LogicalDeviceGroup)
    (device : PhysicalDevice) : gmap string LogicalDeviceGroup :=
  match groupMap !! logicalID device with
  | Some group =>
      <[logicalID device :=
          {| grp_LogicalDevice := grp_LogicalDevice group;
             grp_PhysicalDevices := grp_PhysicalDevices group ++ [device];
             IsCluster := IsCluster group;
             ActiveNode := ActiveNode group;
             StandbyNodes := StandbyNodes group |}]> groupMap
  | None =>
      <[logicalID device :=
          {| grp_LogicalDevice := pd_LogicalDevice device;
             grp_PhysicalDevices := [device];
             IsCluster := false;
             ActiveNode := None;
             StandbyNodes := [] |}]> groupMap
  end.

Definition buildGroupMap (devices : list PhysicalDevice)
  : gmap string LogicalDeviceGroup :=
  foldl addDevice ∅ devices.

Definition hasRole (role : string) (device : PhysicalDevice) : bool :=
  match pd_AsNode device with
  | Some node => String.eqb (Role node) role
  | None => false
  end.

Definition isActive : PhysicalDevice -> bool :=
  hasRole "ACTIVE_STANDBY_ROLE_ACTIVE".
Definition isStandby : PhysicalDevice -> bool :=
  hasRole "ACTIVE_STANDBY_ROLE_STANDBY".

(** One round of the inner loop over the members of a cluster group. *)
Definition noteRole (st : option PhysicalDevice * list PhysicalDevice)
    (device : PhysicalDevice) : option PhysicalDevice * list PhysicalDevice :=
  if isActive device then (Some device, st.2)
  else if isStandby device then (st.1, st.2 ++ [device])
  else st.

(** The body of the second loop: topology analysis of one group. *)
Definition analyzeGroup (group : LogicalDeviceGroup) : LogicalDeviceGroup :=
  let isCluster :=
    String.eqb (ld_TopologyType (grp_LogicalDevice group))
               "TOPOLOGY_TYPE_ACTIVE_STANDBY"
    || String.eqb (ld_TopologyType (grp_LogicalDevice group))
                  "TOPOLOGY_TYPE_CLUSTER" in
  if isCluster then
    let st := foldl noteRole (ActiveNode group, StandbyNodes group)
                (grp_PhysicalDevices group) in
    {| grp_LogicalDevice := grp_LogicalDevice group;
       grp_PhysicalDevices := grp_PhysicalDevices group;
       IsCluster := true;
       ActiveNode := st.1;
       StandbyNodes := st.2 |}
  else
    {| grp_LogicalDevice := grp_LogicalDevice group;
       grp_PhysicalDevices := grp_PhysicalDevices group;
       IsCluster := false;
       ActiveNode := ActiveNode group;
       StandbyNodes := StandbyNodes group |}.

(** Go leaves the order in which [range] visits a map unspecified, and the
    runtime varies it from one loop to the next.  [rangeOrder] is the
    order of one such loop: it is handed the entries of the map and
    returns them in the order visited. *)
Definition RangeOrder :=
  list (string * LogicalDeviceGroup) -> list (string * LogicalDeviceGroup).

Definition validRange (rangeOrder : RangeOrder) : Prop :=
  forall entries, rangeOrder entries ≡ₚ entries.

(** [now] is what [time.Now()] returns during the call. *)
Definition GroupDevicesByLogicalDevice (rangeOrder : RangeOrder) (now : Time)
    (response : APIResponse) : GroupedDevices :=
  let groupMap := buildGroupMap (PhysicalDevices response) in
  let groups :=
    (fun entry => analyzeGroup entry.2) <$> rangeOrder (map_to_list groupMap) in
  {| LogicalDeviceGroups := groups;
     TotalDevices := len_devices (PhysicalDevices response);
     LastUpdated := now |}.

(* ===================================================================== *)
(** * Session client and retry policy *)
(* ===================================================================== *)

(** Go [error] values, as far as the client builds and inspects them. *)
Inductive error :=
  | APIError (StatusCode : Z) (Message Endpoint : string)
      (** a [*APIError] *)
  | errorString (msg : string)
      (** an error carrying a message only: an [fmt.Errorf] without [%w],
          or an error of net/http, io or encoding/json *)
  | wrapError (prefix : string) (cause : error)
      (** [fmt.Errorf(prefix + ": %w", cause)] *)
  | wrapNil (prefix : string).
      (** [fmt.Errorf(prefix + ": %w", nil)] *)

(** [fmt.Errorf(prefix + ": %w", err)] for an [err] that may be nil. *)
Definition Errorf_w (prefix : string) (err : option error) : error :=
  match err with
  | Some e => wrapError prefix e
  | None => wrapNil prefix
  end.

(** [err.Error()]. *)
Fixpoint Error (e : error) : string :=
  match e with
  | APIError code message endpoint =>
      "API error: " +:+ pretty code +:+ " " +:+ message
        +:+ " (endpoint: " +:+ endpoint +:+ ")"
  | errorString msg => msg
  | wrapError prefix cause => prefix +:+ ": " +:+ Error cause
  | wrapNil prefix => prefix +:+ ": %!w(<nil>)"
  end.

Record Cookie := {
  cookie_Name : string;
  cookie_Value : string
}.

(** The result of [json.Marshal] on the two request bodies, kept as data. *)
Inductive Payload :=
  | LoginRequest (Login_ Password_ : string)
  | LimitData (Limit : Z).

Record Request := {
  req_Method : string;
  req_URL : string;
  req_Body : Payload;
  req_Header : list (string * string);
  req_Cookie : option Cookie
}.

(** An HTTP response as the client reads it: [resp_ReadErr] is the error of
    [io.ReadAll(resp.Body)], if any; [resp_Cookies] is [resp.Cookies()]. *)
Record Response := {
  resp_StatusCode : Z;
  resp_Body : string;
  resp_ReadErr : option string;
  resp_Cookies : list Cookie
}.

(** The methods whose calls are counted. *)
Inductive Func :=
  | FnLogin (login password : string)
  | FnFetchDevices.

(** What a run of the client does, in order: [EvCall] marks the entry of a
    method, [EvRequest] a request handed to [ac.client.Do], [EvSleep] a
    [time.Sleep]. *)
Inductive Event :=
  | EvCall (f : Func)
  | EvRequest (r : Request)
  | EvSleep (d : Duration).

(** The world outside the client.  [env_Do history req] is the outcome of
    [ac.client.Do(req)] after the events of [history]: a transport error
    or a response (the cookie jar and the request timeout of the
    [http.Client] are part of it).  [env_NewRequestErr url] is the error of
    [http.NewRequest] for [url], if it has one; [env_Unmarshal] is
    [json.Unmarshal] into an [APIResponse]. *)
Record Env := {
  env_Do : list Event -> Request -> string + Response;
  env_NewRequestErr : string -> option string;
  env_Unmarshal : string -> string + APIResponse
}.

Record APIClient := {
  config : Config;
  base_url : string;
  devicesEndpoint : string;
  loginEndpoint : string;
  authCookie : option Cookie;
  authenticated : bool
}.

Definition set_auth (cookie : option Cookie) (flag : bool) (ac : APIClient)
  : APIClient :=
  {| config := config ac; base_url := base_url ac;
     devicesEndpoint := devicesEndpoint ac; loginEndpoint := loginEndpoint ac;
     authCookie := cookie; authenticated := flag |}.

Definition NewAPIClient (cfg : Config) : APIClient :=
  {| config := cfg; base_url := EmptyString;
     devicesEndpoint := BaseURL cfg +:+ "ListPhysicalDevices";
     loginEndpoint := BaseURL cfg +:+ "Login";
     authCookie := None; authenticated := false |}.

(** The methods of [*APIClient] run in a state monad over the client's
    fields and the trace of events. *)
Record World := {
  ac : APIClient;
  trace : list Event
}.

Definition M (A : Type) : Type := World -> A * World.

Definition ret {A} (a : A) : M A := fun w => (a, w).
Definition bind {A B} (m : M A) (k : A -> M B) : M B :=
  fun w => let '(a, w') := m w in k a w'.

Declare Scope go_scope.
Delimit Scope go_scope with go.
Notation "'let*' x ':=' m 'in' k" := (bind m (fun x => k))
  (at level 10, x name, m at level 100, k at level 200) : go_scope.
Notation "'run' m 'in' k" := (bind m (fun _ => k))
  (at level 10, m at level 100, k at level 200) : go_scope.

Definition emit (e : Event) : M unit :=
  fun w => (tt, {| ac := ac w; trace := trace w ++ [e] |}).
Definition get_ac : M APIClient := fun w => (ac w, w).
Definition put_ac (c : APIClient) : M unit :=
  fun w => (tt, {| ac := c; trace := trace w |}).

Definition headers : list (string * string) :=
  [("Content-Type", "application/json");
   ("Accept", "application/json");
   ("User-Agent", "go-api-monitor/1.0")].

(** The request [Login] builds: [http.NewRequest] and the three headers. *)
Definition loginRequest (c : APIClient) (jsonData : Payload) : Request :=
  {| req_Method := "POST"; req_URL := loginEndpoint c; req_Body := jsonData;
     req_Header := headers; req_Cookie := None |}.

(** The request [makeDevicesRequest] builds, with the session cookie added
    when the client holds one. *)
Definition devicesRequest (c : APIClient) (jsonData : Payload) : Request :=
  {| req_Method := "POST"; req_URL := devicesEndpoint c; req_Body := jsonData;
     req_Header := headers; req_Cookie := authCookie c |}.

(** The test of [Login] on a cookie of the response. *)
Definition isAuthCookie (cookie : Cookie) : bool :=
  String.eqb (cookie_Name cookie) "Authorization"
  || String.eqb (cookie_Name cookie) "Autorization".

Definition StatusOK : Z := 200.
Definition StatusUnauthorized : Z := 401.

(** Go's [int] and [int64]: 64 bits, two's complement. *)
Definition wrap64 (z : Z) : Z := (z + 2 ^ 63) mod 2 ^ 64 - 2 ^ 63.

Definition Second : Duration := 1000000000.

Section Client.
Variable env : Env.
Local Open Scope go_scope.

(** [ac.client.Do(req)]. *)
Definition Do (req : Request) : M (string + Response) :=
  fun w => (env_Do env (trace w) req,
            {| ac := ac w; trace := trace w ++ [EvRequest req] |}).

(** The loop of [Login] over [resp.Cookies()]. *)
Fixpoint takeAuthCookie (cookies : list Cookie) : M unit :=
  match cookies with
  | [] => ret tt
  | cookie :: rest =>
      if isAuthCookie cookie
      then let* c := get_ac in put_ac (set_auth (Some cookie) true c)
      else takeAuthCookie rest
  end.

Definition Login (login password : string) : M (option error) :=
  run emit (EvCall (FnLogin login password)) in
  let jsonData := LoginRequest login password in
  let* c := get_ac in
  match env_NewRequestErr env (loginEndpoint c) with
  | Some e =>
      ret (Some (wrapError "failed to create login request"
                   (errorString e)))
  | None =>
      let req := loginRequest c jsonData in
      let* r := Do req in
      match r with
      | inl e =>
          ret (Some (wrapError "failed to execute login request"
                       (errorString e)))
      | inr resp =>
          if negb (resp_StatusCode resp =? StatusOK) then
            ret (Some (APIError (resp_StatusCode resp) (resp_Body resp)
                         (loginEndpoint c)))
          else
            run takeAuthCookie (resp_Cookies resp) in
            let* c' := get_ac in
            if negb (authenticated c') then
              ret (Some (errorString
                "no Authorization cookie received from login response"))
            else ret None
      end
  end.

Definition makeDevicesRequest (jsonData : Payload)
  : M (error + APIResponse) :=
  let* c := get_ac in
  match env_NewRequestErr env (devicesEndpoint c) with
  | Some e =>
      ret (inl (wrapError "failed to create request" (errorString e)))
  | None =>
      let req := devicesRequest c jsonData in
      let* r := Do req in
      match r with
      | inl e =>
          ret (inl (wrapError "failed to execute request"
                      (errorString e)))
      | inr resp =>
          if resp_StatusCode resp =? StatusUnauthorized then
            ret (inl (APIError (resp_StatusCode resp)
                        "authentication expired" (devicesEndpoint c)))
          else if negb (resp_StatusCode resp =? StatusOK) then
            ret (inl (APIError (resp_StatusCode resp) (resp_Body resp)
                        (devicesEndpoint c)))
          else
            match resp_ReadErr resp with
            | Some e =>
                ret (inl (wrapError "failed to read response body"
                            (errorString e)))
            | None =>
                match env_Unmarshal env (resp_Body resp) with
                | inl e =>
                    ret (inl (wrapError "failed to parse JSON response"
                                (errorString e)))
                | inr apiResponse => ret (inr apiResponse)
                end
            end
      end
  end.

(** The type assertion of [err] to an [APIError] pointer succeeds, and the
    status code is 401. *)
Definition isUnauthorized (err : error) : bool :=
  match err with
  | APIError code _ _ => code =? StatusUnauthorized
  | _ => false
  end.

Definition FetchDevices : M (error + APIResponse) :=
  run emit (EvCall FnFetchDevices) in
  let jsonData := LimitData 10000 in
  let* c := get_ac in
  if negb (authenticated c) then
    ret (inl (errorString "not authenticated - please login first"))
  else
    let* r := makeDevicesRequest jsonData in
    match r with
    | inr response => ret (inr response)
    | inl err =>
        if isUnauthorized err then
          let* c1 := get_ac in
          run put_ac (set_auth (authCookie c1) false c1) in
          let* reAuthErr :=
            Login (Username (config c1)) (Password (config c1)) in
          match reAuthErr with
          | Some e =>
              ret (inl (wrapError "failed to re-authenticate" e))
          | None =>
              let* r' := makeDevicesRequest jsonData in
              match r' with
              | inl err' =>
                  ret (inl (wrapError "failed after re-authentication"
                              err'))
              | inr response => ret (inr response)
              end
          end
        else ret (inl err)
    end.

(** The type assertion of [err] to an [APIError] pointer succeeds, and the
    status code is at least 400 and below 500. *)
Definition isClientError (err : error) : bool :=
  match err with
  | APIError code _ _ => (400 <=? code) && (code <? 500)
  | _ => false
  end.

(** The loop of [FetchDevicesWithRetry], from the test of its condition
    on.  It ends with the response, or with [lastErr] when it falls out
    of the loop.  [fuel] bounds the rounds: [attempt] grows by one each
    round, so [maxRetries + 1 - attempt] rounds are all the condition
    allows. *)
Fixpoint retryLoop (fuel : nat) (maxRetries attempt : Z)
    (lastErr : option error) : M (option error + APIResponse) :=
  match fuel with
  | O => ret (inl lastErr)
  | S fuel' =>
      if attempt <=? maxRetries then
        run (if 0 <? attempt then
               let waitTime := wrap64 (attempt * Second) in
               emit (EvSleep waitTime)
             else ret tt) in
        let* r := FetchDevices in
        match r with
        | inr response => ret (inr response)
        | inl err =>
            if isClientError err then ret (inl (Some err))
            else retryLoop fuel' maxRetries (wrap64 (attempt + 1)) (Some err)
        end
      else ret (inl lastErr)
  end.

Definition FetchDevicesWithRetry (maxRetries : Z)
  : M (error + APIResponse) :=
  let* r := retryLoop (Z.to_nat (maxRetries + 1)) maxRetries 0 None in
  match r with
  | inr response => ret (inr response)
  | inl lastErr =>
      ret (inl (Errorf_w
                  ("failed after " +:+ pretty (wrap64 (maxRetries + 1))
                     +:+ " attempts")
                  lastErr))
  end.

End Client.

(* ===================================================================== *)
(** * Display manager: [Render] *)
(* ===================================================================== *)

(** [lastData] is a pointer, nil until the first successful render. *)
Record DisplayManager := {
  dm_config : Config;
  lastData : option GroupedDevices;
  errorMessage : string;
  termWidth : Z;
  termHeight : Z;
  startRow : Z;
  linesDrawn : Z
}.

(** What [Render] puts on the screen, block by block, top to bottom.  Each
    block stands for the lines one of the [render...] methods prints, with
    the data the method is given; the text of the lines (borders, padding,
    colours) is not part of this model, the number of lines is. *)
Inductive Draw :=
  | DrawClear
      (** [ClearScreen] *)
  | DrawHeader (totalDevices : option Z)
      (** [renderHeader]; the total is shown when [ShowTimestamp] is set *)
  | DrawError (message : string)
      (** [renderError]: the banner for [dm.errorMessage] *)
  | DrawSubheader (message : string)
      (** [renderSubheader] *)
  | DrawDeviceGroups (data : GroupedDevices)
      (** [renderDeviceGroups] *)
  | DrawMessage (message : string)
      (** [renderMessage] *)
  | DrawFooter (failed : bool).
      (** [renderFooter]; the host is red when [dm.errorMessage] is set *)

Definition Screen : Type := DisplayManager * list Draw.

(** A block of [n] lines is printed: [printLine] and [printf] count them. *)
Definition printed (n : Z) (block : Draw) (st : Screen) : Screen :=
  let dm := st.1 in
  ({| dm_config := dm_config dm; lastData := lastData dm;
      errorMessage := errorMessage dm; termWidth := termWidth dm;
      termHeight := termHeight dm; startRow := startRow dm;
      linesDrawn := linesDrawn dm + n |},
   st.2 ++ [block]).

(** [strings.Repeat(_, tableWidth-2)] panics when the count is negative;
    a panic is [None]. *)
Definition Repeat_border (dm : DisplayManager) : option unit :=
  if termWidth dm - 2 <? 0 then None else Some tt.

Definition ClearScreen (st : Screen) : Screen :=
  let dm := st.1 in
  ({| dm_config := dm_config dm; lastData := lastData dm;
      errorMessage := errorMessage dm; termWidth := termWidth dm;
      termHeight := termHeight dm; startRow := startRow dm;
      linesDrawn := 0 |},
   st.2 ++ [DrawClear]).

Definition renderHeader (st : Screen) : option Screen :=
  _ ← Repeat_border st.1;
  let totalDevices :=
    match lastData st.1 with
    | Some d => TotalDevices d
    | None => 0
    end in
  Some (printed 3
          (DrawHeader (if ShowTimestamp (dm_config st.1)
                       then Some totalDevices else None)) st).

Definition renderError (st : Screen) : option Screen :=
  _ ← Repeat_border st.1;
  Some (printed 2 (DrawError (errorMessage st.1)) st).

Definition renderSubheader (message : string) (st : Screen) : option Screen :=
  Some (printed 1 (DrawSubheader message) st).

Definition renderMessage (message : string) (st : Screen) : option Screen :=
  Some (printed 1 (DrawMessage message) st).

(** Lines of [renderDeviceGroups] for a non-empty list of groups: a title
    line and one line per member for each group, and an empty line between
    two groups. *)
Definition groupLines (groups : list LogicalDeviceGroup) : Z :=
  foldr (fun g n => 1 + Z.of_nat (length (grp_PhysicalDevices g)) + n) 0 groups
  + (Z.of_nat (length groups) - 1).

Definition renderDeviceGroups (data : GroupedDevices) (st : Screen)
  : option Screen :=
  match LogicalDeviceGroups data with
  | [] => renderMessage "No devices found" st
  | [_] => Some (printed (groupLines (LogicalDeviceGroups data))
                   (DrawDeviceGroups data) st)
  | _ =>
      _ ← Repeat_border st.1;
      Some (printed (groupLines (LogicalDeviceGroups data))
              (DrawDeviceGroups data) st)
  end.

Definition renderFooter (st : Screen) : option Screen :=
  _ ← Repeat_border st.1;
  Some (printed 3
          (DrawFooter (negb (String.eqb (errorMessage st.1) EmptyString)))
          st).

Section Display.
(** [t.Format("2006-01-02 15:04:05")]. *)
Variable Format : Time -> string.

Definition Render (dm : DisplayManager) (data : option GroupedDevices)
    (err : option error) : option Screen :=
  let st := ClearScreen (dm, []) in
  let dm1 :=
    match err with
    | Some e =>
        {| dm_config := dm_config st.1; lastData := lastData st.1;
           errorMessage := Error e; termWidth := termWidth st.1;
           termHeight := termHeight st.1; startRow := startRow st.1;
           linesDrawn := linesDrawn st.1 |}
    | None =>
        {| dm_config := dm_config st.1; lastData := data;
           errorMessage := EmptyString; termWidth := termWidth st.1;
           termHeight := termHeight st.1; startRow := startRow st.1;
           linesDrawn := linesDrawn st.1 |}
    end in
  st ← renderHeader (dm1, st.2);
  st ← (if negb (String.eqb (errorMessage st.1) EmptyString) then
          st ← renderError st;
          match lastData st.1 with
          | Some last =>
              let lastUpdateTime := Format (LastUpdated last) in
              let message :=
                "Last known data (from " +:+ lastUpdateTime +:+ "):" in
              st ← renderSubheader message st;
              renderDeviceGroups last st
          | None => Some st
          end
        else
          match data with
          | Some d => renderDeviceGroups d st
          | None => renderMessage "Waiting for data..." st
          end);
  renderFooter st.

(** The retained snapshot after a sequence of [Render] calls, each given
    as its [(data, err)] arguments; [None] if one of them panics. *)
Fixpoint renders (dm : DisplayManager)
    (calls : list (option GroupedDevices * option error))
  : option DisplayManager :=
  match calls with
  | [] => Some dm
  | (data, err) :: rest =>
      st ← Render dm data err;
      renders st.1 rest
  end.

End Display.

(* ===================================================================== *)
(** * Notions used in the statements and proofs *)
(* ===================================================================== *)

(** Bytes that end every attempt to match: outside the two classes and
    not the bracket. *)
Definition stopper (d : ascii) : bool :=
  negb (isParam d) && negb (isLetter d) && negb (isLBracket d).

(** [quiet t X]: no match starts inside [t] when [t] is followed by [X]. *)
Fixpoint quiet (t X : bytes) : Prop :=
  match t with
  | [] => True
  | _ :: t' => ansiMatchAt (t ++ X) = None /\ quiet t' X
  end.

(** [Tokens s parts codes]: [s] is [parts] and [codes] interleaved, every
    code is a match where it stands, and no match starts inside a part. *)
Inductive Tokens : bytes -> list bytes -> list bytes -> Prop :=
  | tok_last t :
      quiet t [] -> Tokens t [t] []
  | tok_code t c rest parts codes :
      quiet t (c ++ rest) ->
      ansiMatchAt (c ++ rest) = Some (length c) ->
      Tokens rest parts codes ->
      Tokens (t ++ c ++ rest) (t :: parts) (c :: codes).

(** The group the first loop has built for the key [k]: its members are
    the devices with that logical-device id, in fetch order, and its
    [LogicalDevice] is the one of the first of them. *)
Definition groupOf (devices : list PhysicalDevice) (k : string)
  : option LogicalDeviceGroup :=
  match filter (fun d => logicalID d = k) devices with
  | [] => None
  | first_member :: others =>
      Some {| grp_LogicalDevice := pd_LogicalDevice first_member;
              grp_PhysicalDevices := first_member :: others;
              IsCluster := false;
              ActiveNode := None;
              StandbyNodes := [] |}
  end.

Definition isClusterTopology (topology : string) : bool :=
  String.eqb topology "TOPOLOGY_TYPE_ACTIVE_STANDBY"
  || String.eqb topology "TOPOLOGY_TYPE_CLUSTER".

Definition groupID (g : LogicalDeviceGroup) : string :=
  ld_ID (grp_LogicalDevice g).

(** The claim of C3 about the active node of a group: it is the first
    member, in fetch order, whose role is active. *)
Definition first_active_designated (g : LogicalDeviceGroup) : Prop :=
  ActiveNode g
  = head (filter (fun d => isActive d = true) (grp_PhysicalDevices g)).

(** The world after the events [es]. *)
Definition after (w : World) (es : list Event) : World :=
  {| ac := ac w; trace := trace w ++ es |}.

Definition countb {A} (p : A -> bool) (l : list A) : nat :=
  length (List.filter p l).

Definition isLoginCall (e : Event) : bool :=
  match e with EvCall (FnLogin _ _) => true | _ => false end.

Definition isFetchCall (e : Event) : bool :=
  match e with EvCall FnFetchDevices => true | _ => false end.

Definition isSleep (e : Event) : bool :=
  match e with EvSleep _ => true | _ => false end.

Definition isDevicesRequest (e : Event) : bool :=
  match e with
  | EvRequest r => match req_Body r with LimitData _ => true | _ => false end
  | _ => false
  end.

(** What [makeDevicesRequest] makes of a response. *)
Definition devicesResult (env : Env) (endpoint : string) (resp : Response)
  : error + APIResponse :=
  if resp_StatusCode resp =? StatusUnauthorized then
    inl (APIError (resp_StatusCode resp) "authentication expired" endpoint)
  else if negb (resp_StatusCode resp =? StatusOK) then
    inl (APIError (resp_StatusCode resp) (resp_Body resp) endpoint)
  else
    match resp_ReadErr resp with
    | Some e => inl (wrapError "failed to read response body" (errorString e))
    | None =>
        match env_Unmarshal env (resp_Body resp) with
        | inl e =>
            inl (wrapError "failed to parse JSON response" (errorString e))
        | inr apiResponse => inr apiResponse
        end
    end.

Definition toLower (c : ascii) : ascii :=
  if ((65 <=? N_of_ascii c) && (N_of_ascii c <=? 90))%N
  then ascii_of_N (N_of_ascii c + 32) else c.

(** [strings.EqualFold] on ASCII names: equality up to letter case. *)
Fixpoint EqualFold (a b : string) : bool :=
  match a, b with
  | EmptyString, EmptyString => true
  | String x a', String y b' =>
      Ascii.eqb (toLower x) (toLower y) && EqualFold a' b'
  | _, _ => false
  end.

(** The calls of [FetchDevices] and the sleeps of a trace, in order. *)
Definition policyEvents (t : list Event) : list Event :=
  List.filter (fun e => isFetchCall e || isSleep e) t.

(** [n] attempts from attempt number [attempt] on: each is a call of
    [FetchDevices], preceded, unless it is attempt 0, by a sleep of
    [attempt] seconds. *)
Fixpoint schedule (n : nat) (attempt : Z) : list Event :=
  match n with
  | O => []
  | S n' =>
      (if 0 <? attempt then [EvSleep (attempt * Second)] else [])
      ++ EvCall FnFetchDevices :: schedule n' (attempt + 1)
  end.

(** The world in which attempt number [attempt] calls [FetchDevices]. *)
Definition slept (attempt : Z) (w : World) : World :=
  if 0 <? attempt then after w [EvSleep (wrap64 (attempt * Second))] else w.

(** What [renderDeviceGroups] shows of a snapshot. *)
Definition snapshot_block (last : GroupedDevices) : Draw :=
  match LogicalDeviceGroups last with
  | [] => DrawMessage "No devices found"
  | _ => DrawDeviceGroups last
  end.

(** The number of lines of a block. *)
Definition blockLines (b : Draw) : Z :=
  match b with
  | DrawClear => 0
  | DrawHeader _ => 3
  | DrawError _ => 2
  | DrawSubheader _ => 1
  | DrawDeviceGroups d => groupLines (LogicalDeviceGroups d)
  | DrawMessage _ => 1
  | DrawFooter _ => 3
  end.

(** The blocks between header and footer, for the error message [msg]
    (empty when the call was given no error), the snapshot [last] retained
    after the call, and the [data] of the call. *)
Definition body_blocks (Format : Time -> string) (msg : string)
    (last data : option GroupedDevices) : list Draw :=
  if negb (String.eqb msg EmptyString) then
    DrawError msg ::
      match last with
      | Some l =>
          [DrawSubheader ("Last known data (from "
                            +:+ Format (LastUpdated l) +:+ "):");
           snapshot_block l]
      | None => []
      end
  else
    match data with
    | Some d => [snapshot_block d]
    | None => [DrawMessage "Waiting for data..."]
    end.

(* ===================================================================== *)
(** * Sample data *)
(* ===================================================================== *)

Definition sample_name : bytes :=
  ColorRed ++ bytes_of "very-long-device-name-1234" ++ ColorReset.

Definition mkLogical (id name topology : string) : LogicalDevice :=
  {| ld_ID := id; ld_Name := name; ld_TopologyType := topology;
     ld_VirtualContexts := [] |}.

Definition mkNode (role : string) (priority : Z) : AsNode :=
  {| SyncLinkIP := EmptyString; SyncLinkPort := 0; Priority := priority;
     Role := role; SuspendMode := EmptyString |}.

Definition mkDevice (id : string) (logical : LogicalDevice)
    (node : option AsNode) : PhysicalDevice :=
  {| pd_ID := id; pd_LogicalDevice := logical; pd_Name := id;
     pd_Description := EmptyString; pd_Model := EmptyString;
     pd_SerialNumber := EmptyString; pd_ConnectionState := EmptyString;
     pd_Address := EmptyString; pd_AddressType := EmptyString;
     pd_LastConnectedAt := EmptyString; pd_CreatedAt := EmptyString;
     pd_UpdatedAt := EmptyString; pd_AsNode := node;
     pd_SoftwareVersion := EmptyString; pd_TopologyType := EmptyString;
     pd_HealthStatus := EmptyString; pd_ConfigurationStatus := EmptyString;
     pd_ProductVersion := EmptyString; pd_LogicalDeviceChange := EmptyString |}.

Definition L1 : LogicalDevice :=
  mkLogical "L1" "cluster" "TOPOLOGY_TYPE_ACTIVE_STANDBY".
Definition L2 : LogicalDevice :=
  mkLogical "L2" "single" "TOPOLOGY_TYPE_STANDALONE".
(** The id of [L1] under another name and topology. *)
Definition L1' : LogicalDevice :=
  mkLogical "L1" "renamed" "TOPOLOGY_TYPE_STANDALONE".

Definition node_a : PhysicalDevice :=
  mkDevice "a" L1 (Some (mkNode "ACTIVE_STANDBY_ROLE_ACTIVE" 1)).
Definition node_b : PhysicalDevice :=
  mkDevice "b" L1 (Some (mkNode "ACTIVE_STANDBY_ROLE_ACTIVE" 2)).
Definition node_c : PhysicalDevice :=
  mkDevice "c" L1 (Some (mkNode "ACTIVE_STANDBY_ROLE_STANDBY" 3)).
Definition node_d : PhysicalDevice :=
  mkDevice "d" L1' (Some (mkNode "ACTIVE_STANDBY_ROLE_UNSPECIFIED" 4)).
Definition box_e : PhysicalDevice := mkDevice "e" L2 None.

Definition fetched (devices : list PhysicalDevice) : APIResponse :=
  {| PhysicalDevices := devices; Total := len_devices devices |}.

(** Two orders in which [range] may visit the same map. *)
Definition rangeForward : RangeOrder := fun entries => entries.
Definition rangeBackward : RangeOrder := fun entries => reverse entries.

Definition sample_config : Config :=
  {| BaseURL := "https://mgmt.local/api/v2/"; APIEndpoint := EmptyString;
     PollInterval := 5 * Second; RequestTimeout := 30 * Second;
     ShowTimestamp := true; ColorOutput := true;
     Username := "admin"; Password := "secret" |}.

Definition fresh_world : World :=
  {| ac := NewAPIClient sample_config; trace := [] |}.

Definition plain_response (status : Z) (cookies : list Cookie) : Response :=
  {| resp_StatusCode := status; resp_Body := "body"; resp_ReadErr := None;
     resp_Cookies := cookies |}.

(** A server that answers every request with status 200 and one cookie. *)
Definition env_cookie (cookie : Cookie) : Env :=
  {| env_Do := fun _ _ => inr (plain_response 200 [cookie]);
     env_NewRequestErr := fun _ => None;
     env_Unmarshal := fun _ => inr (fetched []) |}.

Definition lowercase_cookie : Cookie :=
  {| cookie_Name := "authorization"; cookie_Value := "token" |}.

Definition misspelt_cookie : Cookie :=
  {| cookie_Name := "Autorization"; cookie_Value := "token" |}.

(** A server that answers every request with the same status. *)
Definition env_status (status : Z) : Env :=
  {| env_Do := fun _ _ => inr (plain_response status []);
     env_NewRequestErr := fun _ => None;
     env_Unmarshal := fun _ => inr (fetched []) |}.

Definition logged_in_world : World :=
  {| ac := set_auth (Some misspelt_cookie) true (NewAPIClient sample_config);
     trace := [] |}.

(** A session that has expired: the server answers a devices request with
    401 until a login request has been made, and with 200 afterwards. *)
Definition env_expired : Env :=
  {| env_Do := fun history req =>
       match req_Body req with
       | LoginRequest _ _ => inr (plain_response 200 [misspelt_cookie])
       | LimitData _ =>
           if (0 <? countb isLoginCall history)%nat
           then inr (plain_response 200 [])
           else inr (plain_response 401 [])
       end;
     env_NewRequestErr := fun _ => None;
     env_Unmarshal := fun _ => inr (fetched [node_a]) |}.

Definition sample_snapshot : GroupedDevices :=
  GroupDevicesByLogicalDevice rangeForward 1700000000
    (fetched [node_a; node_c; box_e]).

Definition sample_display : DisplayManager :=
  {| dm_config := sample_config; lastData := Some sample_snapshot;
     errorMessage := EmptyString; termWidth := 120; termHeight := 50;
     startRow := -1; linesDrawn := 0 |}.

Definition sample_Format (t : Time) : string := pretty t.

Definition sample_failure : error :=
  wrapError "failed after 3 attempts"
    (APIError 503 "body" "https://mgmt.local/api/v2/ListPhysicalDevices").

(* ===================================================================== *)
(** * Properties of the layout engine *)
(* ===================================================================== *)

Section Matcher.

Lemma paramsLetter_bounds s n :
  paramsLetter s = Some n -> (1 <= n <= length s)%nat.
Proof.
  revert n. induction s as [|c s IH]; intros n; simpl; [done|].
  destruct (isParam c).
  - destruct (paramsLetter s) as [m|]; simpl; [|done].
    intros [= <-]. specialize (IH m eq_refl). lia.
  - destruct (isLetter c); [|done]. intros [= <-]. lia.
Qed.

Lemma paramsLetter_app s X n :
  paramsLetter s = Some n -> paramsLetter (s ++ X) = Some n.
Proof.
  revert n. induction s as [|c s IH]; intros n; simpl; [done|].
  destruct (isParam c); [|done].
  destruct (paramsLetter s) as [m|]; simpl; [|done].
  intros [= <-]. by rewrite (IH m eq_refl).
Qed.

Lemma paramsLetter_take s n :
  paramsLetter s = Some n -> paramsLetter (take n s) = Some n.
Proof.
  revert n. induction s as [|c s IH]; intros n; simpl; [done|].
  destruct (isParam c) eqn:Hp.
  - destruct (paramsLetter s) as [m|]; simpl; [|done].
    intros [= <-]. simpl. rewrite Hp. by rewrite (IH m eq_refl).
  - destruct (isLetter c) eqn:Hl; [|done]. intros [= <-]. simpl.
    by rewrite Hp, Hl.
Qed.

(** A byte outside both classes ends every attempt to match. *)
Lemma paramsLetter_stop b d X n :
  isParam d = false -> isLetter d = false ->
  paramsLetter (b ++ d :: X) = Some n -> paramsLetter b = Some n.
Proof.
  intros Hp Hl. revert n. induction b as [|c b IH]; intros n; simpl.
  - by rewrite Hp, Hl.
  - destruct (isParam c); [|done].
    destruct (paramsLetter (b ++ d :: X)) as [m|]; simpl; [|done].
    intros [= <-]. by rewrite (IH m eq_refl).
Qed.

Lemma ansiMatchAt_bounds s n :
  ansiMatchAt s = Some n -> (3 <= n <= length s)%nat.
Proof.
  destruct s as [|e [|b s]]; simpl; [done..|].
  destruct (isESC e && isLBracket b); [|done].
  destruct (paramsLetter s) as [m|] eqn:Hm; simpl; [|done].
  intros [= <-]. apply paramsLetter_bounds in Hm. lia.
Qed.

Lemma ansiMatchAt_head s n :
  ansiMatchAt s = Some n -> exists e s', s = e :: s' /\ isESC e = true.
Proof.
  destruct s as [|e [|b s]]; simpl; [done..|].
  destruct (isESC e) eqn:He; [|done]. eauto.
Qed.

Lemma ansiMatchAt_app s X n :
  ansiMatchAt s = Some n -> ansiMatchAt (s ++ X) = Some n.
Proof.
  destruct s as [|e [|b s]]; simpl; [done..|].
  destruct (isESC e && isLBracket b); [|done].
  destruct (paramsLetter s) as [m|] eqn:Hm; simpl; [|done].
  intros [= <-]. by rewrite (paramsLetter_app _ X _ Hm).
Qed.

Lemma ansiMatchAt_take s n :
  ansiMatchAt s = Some n -> ansiMatchAt (take n s) = Some n.
Proof.
  destruct s as [|e [|b s]]; simpl; [done..|].
  destruct (isESC e && isLBracket b) eqn:Hh; [|done].
  destruct (paramsLetter s) as [m|] eqn:Hm; simpl; [|done].
  intros [= <-]. simpl. rewrite Hh. by rewrite (paramsLetter_take _ _ Hm).
Qed.

(** The match found in front of [X] is found in front of anything. *)
Lemma ansiMatchAt_tail c X Y :
  ansiMatchAt (c ++ X) = Some (length c) ->
  ansiMatchAt (c ++ Y) = Some (length c).
Proof.
  intros H. apply ansiMatchAt_take in H.
  rewrite take_app_length in H. by apply ansiMatchAt_app.
Qed.

Lemma stopper_ESC e : isESC e = true -> stopper e = true.
Proof.
  unfold isESC, stopper, isParam, isLetter, isLBracket.
  intros H%N.eqb_eq. by rewrite H.
Qed.

Lemma ansiMatchAt_stop b d X n :
  b <> [] -> stopper d = true ->
  ansiMatchAt (b ++ d :: X) = Some n -> ansiMatchAt b = Some n.
Proof.
  unfold stopper. intros Hb Hd.
  apply andb_prop in Hd as [Hd Hbr]. apply andb_prop in Hd as [Hp Hl].
  apply negb_true_iff in Hp, Hl, Hbr.
  destruct b as [|e [|b1 b]]; [done| |]; simpl.
  - rewrite Hbr, andb_false_r. done.
  - destruct (isESC e && isLBracket b1); [|done].
    destruct (paramsLetter (b ++ d :: X)) as [m|] eqn:Hm; simpl; [|done].
    intros [= <-]. by rewrite (paramsLetter_stop _ _ _ _ Hp Hl Hm).
Qed.

Lemma quiet_take_stop t X k d Y :
  quiet t X -> stopper d = true -> quiet (take k t) (d :: Y).
Proof.
  intros Hq Hd. revert k Hq.
  induction t as [|c t IH]; intros k Hq; [by destruct k|].
  destruct k as [|k]; [done|]. destruct Hq as [Hc Hq]. simpl. split.
  - destruct (ansiMatchAt (c :: take k t ++ d :: Y)) as [n|] eqn:Hn; [|done].
    apply (ansiMatchAt_stop (c :: take k t)) in Hn; [|done..].
    apply (ansiMatchAt_app _ (drop k t ++ X)) in Hn.
    simpl in Hn. rewrite (assoc_L (++)), take_drop in Hn.
    simpl in Hc. congruence.
  - by apply IH.
Qed.

Lemma quiet_stop t X d Y :
  quiet t X -> stopper d = true -> quiet t (d :: Y).
Proof.
  intros Hq Hd. rewrite <- (firstn_all t) at 1.
  by eapply quiet_take_stop.
Qed.

Lemma scan_skip a X : scan (length a) (a ++ X) = scan 0 X.
Proof. induction a as [|c a IH]; [by destruct X|done]. Qed.

Lemma scan_quiet t X :
  quiet t X -> scan 0 (t ++ X) = (inl <$> t) ++ scan 0 X.
Proof.
  induction t as [|c t IH]; [done|]. intros [Hc Hq].
  change (scan 0 ((c :: t) ++ X))
    with (match ansiMatchAt ((c :: t) ++ X) with
          | Some n => inr (take n ((c :: t) ++ X)) :: scan (pred n) (t ++ X)
          | None => inl c :: scan 0 (t ++ X)
          end).
  rewrite Hc, (IH Hq). done.
Qed.

Lemma scan_match c X :
  ansiMatchAt (c ++ X) = Some (length c) ->
  scan 0 (c ++ X) = inr c :: scan 0 X.
Proof.
  intros H. pose proof (ansiMatchAt_bounds _ _ H) as [Hlen _].
  destruct c as [|c0 c]; [simpl in Hlen; lia|].
  change (scan 0 ((c0 :: c) ++ X))
    with (match ansiMatchAt ((c0 :: c) ++ X) with
          | Some n => inr (take n ((c0 :: c) ++ X)) :: scan (pred n) (c ++ X)
          | None => inl c0 :: scan 0 (c ++ X)
          end).
  rewrite H, take_app_length. simpl. by rewrite scan_skip.
Qed.

End Matcher.

Section Truncation.

Lemma stripColors_quiet t X :
  quiet t X -> stripColors (t ++ X) = t ++ stripColors X.
Proof.
  intros Hq. unfold stripColors, ReplaceAllString_empty.
  rewrite (scan_quiet _ _ Hq), omap_app. f_equal.
  clear. induction t as [|c t IH]; [done|].
  change (c :: omap unmatched (inl <$> t) = c :: t). by rewrite IH.
Qed.

Lemma stripColors_match c X :
  ansiMatchAt (c ++ X) = Some (length c) ->
  stripColors (c ++ X) = stripColors X.
Proof.
  intros H. unfold stripColors, ReplaceAllString_empty.
  by rewrite (scan_match _ _ H).
Qed.

Lemma scan_unmatched_length skip s :
  (length (omap unmatched (scan skip s)) <= length s)%nat.
Proof.
  revert skip. induction s as [|c s IH]; intros skip; [done|].
  destruct skip as [|k].
  - change (scan 0 (c :: s))
      with (match ansiMatchAt (c :: s) with
            | Some n => inr (take n (c :: s)) :: scan (pred n) s
            | None => inl c :: scan 0 s
            end).
    destruct (ansiMatchAt (c :: s)) as [n|].
    + change (omap unmatched (inr (take n (c :: s)) :: scan (pred n) s))
        with (omap unmatched (scan (pred n) s)).
      specialize (IH (pred n)). simpl length. lia.
    + change (omap unmatched (inl c :: scan 0 s))
        with (c :: omap unmatched (scan 0 s)).
      specialize (IH 0%nat). simpl length. lia.
  - change (scan (S k) (c :: s)) with (scan k s).
    specialize (IH k). simpl length. lia.
Qed.

Lemma stripColors_len s : len (stripColors s) <= len s.
Proof.
  unfold len, stripColors, ReplaceAllString_empty.
  pose proof (scan_unmatched_length 0 s). lia.
Qed.

Lemma runeCount_le skip s : (runeCount skip s <= length s)%nat.
Proof.
  revert skip. induction s as [|c s IH]; intros skip; [done|].
  destruct skip as [|k]; cbn [runeCount length].
  - specialize (IH (pred (runeSize (c :: s)))). lia.
  - specialize (IH k). lia.
Qed.

Lemma RuneCountInString_le s : RuneCountInString s <= len s.
Proof. unfold RuneCountInString, len. pose proof (runeCount_le 0 s). lia. Qed.

Lemma displayWidth_le_clean s : displayWidth s <= len (stripColors s).
Proof. apply RuneCountInString_le. Qed.

Lemma displayWidth_le s : displayWidth s <= len s.
Proof.
  pose proof (displayWidth_le_clean s). pose proof (stripColors_len s). lia.
Qed.

Lemma Tokens_scan s skip :
  (skip <= length s)%nat ->
  Tokens (drop skip s) (runs (scan skip s)) (omap matched (scan skip s)).
Proof.
  revert skip. induction s as [|c s IH]; intros skip Hskip.
  - destruct skip; [|simpl in Hskip; lia]. by apply tok_last.
  - destruct skip as [|k]; [|apply IH; simpl in Hskip; lia].
    change (drop 0 (c :: s)) with (c :: s).
    change (scan 0 (c :: s))
      with (match ansiMatchAt (c :: s) with
            | Some n => inr (take n (c :: s)) :: scan (pred n) s
            | None => inl c :: scan 0 s
            end).
    destruct (ansiMatchAt (c :: s)) as [n|] eqn:Hn.
    + pose proof (ansiMatchAt_bounds _ _ Hn) as [Hn3 Hnl]. simpl in Hnl.
      destruct n as [|n]; [lia|]. simpl pred.
      change (omap matched (inr (take (S n) (c :: s)) :: scan n s))
        with (take (S n) (c :: s) :: omap matched (scan n s)).
      change (runs (inr (take (S n) (c :: s)) :: scan n s))
        with ([] :: runs (scan n s)).
      assert (c :: s = [] ++ take (S n) (c :: s) ++ drop n s) as Hs.
      { simpl. by rewrite take_drop. }
      rewrite Hs at 1.
      assert (length (take (S n) (c :: s)) = S n) as Hlen.
      { rewrite length_take. simpl. lia. }
      apply tok_code; [done| |apply IH; lia].
      rewrite Hlen. simpl. by rewrite take_drop.
    + specialize (IH 0%nat ltac:(lia)). rewrite drop_0 in IH.
      change (omap matched (inl c :: scan 0 s))
        with (omap matched (scan 0 s)).
      simpl runs.
      inversion IH as [t Hq Ht Hp Hc|t c0 rest ps cs Hq Hm Hr Ht Hp Hc].
      * apply tok_last. simpl. split; [|done]. by rewrite app_nil_r.
      * apply (tok_code (c :: t)); [|done..]. split; [|done].
        simpl. by rewrite Ht.
Qed.

Lemma Tokens_Split s : Tokens s (Split s) (FindAllString s).
Proof. apply (Tokens_scan s 0). lia. Qed.

(** The loop never panics; what it writes strips to at most
    [targetLen - textLen] bytes of text, whatever follows it, as long as
    that starts with a byte that ends matches. *)
Lemma truncate_loop_spec s parts codes :
  Tokens s parts codes ->
  forall colorCodes colorIndex textLen targetLen,
    drop colorIndex colorCodes = codes ->
    exists out txt,
      truncate_loop parts colorCodes colorIndex textLen targetLen = Some out
      /\ len txt <= Z.max 0 (targetLen - textLen)
      /\ forall d Y, stopper d = true ->
           stripColors (out ++ d :: Y) = txt ++ stripColors (d :: Y).
Proof.
  induction 1 as [t Hq|t c rest parts codes Hq Hm Hrest IH];
    intros colorCodes colorIndex textLen targetLen Hdrop; simpl.
  - destruct (targetLen <=? textLen) eqn:Hfull.
    { exists [], []. split; [done|]. split; [unfold len; simpl; lia|done]. }
    apply Z.leb_gt in Hfull.
    destruct (len t <=? targetLen - textLen) eqn:Hfit.
    + apply Z.leb_le in Hfit.
      assert (colorCodes !! colorIndex = None) as ->.
      { apply lookup_ge_None. apply (f_equal length) in Hdrop.
        rewrite length_drop in Hdrop. simpl in Hdrop. lia. }
      simpl. exists (t ++ []), t. split; [done|]. split; [lia|].
      intros d Y Hd. rewrite app_nil_r.
      apply stripColors_quiet. by eapply quiet_stop.
    + apply Z.leb_gt in Hfit. unfold slice_to.
      assert ((0 <=? targetLen - textLen) && (targetLen - textLen <=? len t)
              = true) as ->.
      { apply andb_true_intro. split; apply Z.leb_le; lia. }
      exists (take (Z.to_nat (targetLen - textLen)) t),
             (take (Z.to_nat (targetLen - textLen)) t).
      split; [done|]. split.
      { unfold len. rewrite length_take. lia. }
      intros d Y Hd. apply stripColors_quiet. by eapply quiet_take_stop.
  - destruct (targetLen <=? textLen) eqn:Hfull.
    { exists [], []. split; [done|]. split; [unfold len; simpl; lia|done]. }
    apply Z.leb_gt in Hfull.
    destruct (ansiMatchAt_head _ _ Hm) as (e & s' & Hhead & He).
    destruct c as [|c0 c].
    { apply ansiMatchAt_bounds in Hm. simpl in Hm. lia. }
    injection Hhead as <- _. apply stopper_ESC in He.
    destruct (len t <=? targetLen - textLen) eqn:Hfit.
    + apply Z.leb_le in Hfit.
      assert (colorCodes !! colorIndex = Some (c0 :: c)) as ->.
      { rewrite <- (Nat.add_0_r colorIndex), <- lookup_drop, Hdrop. done. }
      destruct (IH colorCodes (S colorIndex) (textLen + len t) targetLen)
        as (tl & txt & Htl & Hlen & Hstrip).
      { rewrite <- (Nat.add_1_l colorIndex), Nat.add_comm, <- drop_drop, Hdrop.
        done. }
      rewrite Htl. simpl. exists (t ++ (c0 :: c) ++ tl), (t ++ txt).
      split; [done|]. split.
      { unfold len in *. rewrite length_app. lia. }
      intros d Y Hd. rewrite <- !(assoc_L (++)).
      rewrite stripColors_quiet by (by eapply quiet_stop).
      rewrite (stripColors_match (c0 :: c)) by (by eapply ansiMatchAt_tail).
      by rewrite Hstrip, (assoc_L (++)).
    + apply Z.leb_gt in Hfit. unfold slice_to.
      assert ((0 <=? targetLen - textLen) && (targetLen - textLen <=? len t)
              = true) as ->.
      { apply andb_true_intro. split; apply Z.leb_le; lia. }
      exists (take (Z.to_nat (targetLen - textLen)) t),
             (take (Z.to_nat (targetLen - textLen)) t).
      split; [done|]. split.
      { unfold len. rewrite length_take. lia. }
      intros d Y Hd. apply stripColors_quiet. by eapply quiet_take_stop.
Qed.

End Truncation.

Section TruncateString.

Lemma slice_to_Some s n r :
  slice_to s n = Some r -> r = take (Z.to_nat n) s /\ 0 <= n <= len s.
Proof.
  unfold slice_to. destruct (0 <=? n) eqn:H0; [|done].
  destruct (n <=? len s) eqn:H1; [|done]. simpl. intros [= <-].
  apply Z.leb_le in H0, H1. done.
Qed.

(** Whatever [truncateString] returns is at most [maxLen] wide. *)
Lemma truncateString_width s maxLen r :
  truncateString s maxLen = Some r -> displayWidth r <= maxLen.
Proof.
  unfold truncateString.
  destruct (displayWidth s <=? maxLen) eqn:Hfits.
  { intros [= <-]. by apply Z.leb_le. }
  destruct (maxLen <=? 3) eqn:Hshort.
  - destruct (len (stripColors s) <=? maxLen) eqn:Hclean.
    + intros [= <-]. apply Z.leb_le in Hclean.
      pose proof (displayWidth_le (stripColors s)). lia.
    + intros [-> Hn]%slice_to_Some.
      pose proof (displayWidth_le (take (Z.to_nat maxLen) (stripColors s))).
      unfold len in *. rewrite length_take in *. lia.
  - apply Z.leb_gt in Hshort.
    destruct (len (stripColors s) <=? maxLen - 3) eqn:Hclean.
    + intros [= <-]. apply Z.leb_le in Hclean.
      pose proof (displayWidth_le_clean s). lia.
    + destruct (truncate_loop_spec _ _ _ (Tokens_Split s)
                  (FindAllString s) 0%nat 0 (maxLen - 3) eq_refl)
        as (out & txt & -> & Hlen & Hstrip).
      simpl. intros [= <-].
      pose proof (displayWidth_le_clean
                    (out ++ bytes_of "..." ++ ColorReset)) as Hw.
      change (bytes_of "..." ++ ColorReset)
        with ("."%char :: bytes_of ".." ++ ColorReset) in Hw.
      rewrite Hstrip in Hw by done.
      change (stripColors ("."%char :: bytes_of ".." ++ ColorReset))
        with (bytes_of "...") in Hw.
      unfold len in *. rewrite length_app in Hw. simpl in Hw. lia.
Qed.

(** With a width that is not negative, [truncateString] does not panic. *)
Lemma truncateString_returns s maxLen :
  0 <= maxLen -> is_Some (truncateString s maxLen).
Proof.
  intros Hpos. unfold truncateString.
  destruct (displayWidth s <=? maxLen) eqn:Hfits; [done|].
  apply Z.leb_gt in Hfits. pose proof (displayWidth_le_clean s) as Hw.
  destruct (maxLen <=? 3).
  - destruct (len (stripColors s) <=? maxLen); [done|].
    unfold slice_to.
    assert ((0 <=? maxLen) && (maxLen <=? len (stripColors s)) = true) as ->;
      [|done].
    apply andb_true_intro. split; apply Z.leb_le; lia.
  - destruct (len (stripColors s) <=? maxLen - 3); [done|].
    destruct (truncate_loop_spec _ _ _ (Tokens_Split s)
                (FindAllString s) 0%nat 0 (maxLen - 3) eq_refl)
      as (out & txt & -> & _). done.
Qed.

Lemma truncateString_fits s maxLen :
  displayWidth s <= maxLen -> truncateString s maxLen = Some s.
Proof.
  intros H. unfold truncateString.
  by apply Z.leb_le in H as ->.
Qed.

End TruncateString.

(** C8: truncating the result of [truncateString s w] again to the same
    width [w] gives that result back: the second call returns its argument
    unchanged.  For [w >= 0] the first call does return a string; for a
    negative [w] it panics, and so does the composition. *)
Theorem truncateString_idempotent (s : bytes) (w : Z) :
  (r ← truncateString s w; truncateString r w) = truncateString s w
  /\ (0 <= w -> exists r,
        truncateString s w = Some r /\ truncateString r w = Some r).
Proof.
  assert (forall r, truncateString s w = Some r -> truncateString r w = Some r)
    as Hagain.
  { intros r Hr. apply truncateString_fits. by eapply truncateString_width. }
  split.
  - destruct (truncateString s w) as [r|] eqn:Hr; [|done].
    simpl. by apply Hagain.
  - intros Hw. destruct (truncateString_returns s w Hw) as [r Hr].
    exists r. split; [done|]. by apply Hagain.
Qed.

Lemma truncateString_idempotent_witness :
  0 <= 20 /\
  exists r, truncateString sample_name 20 = Some r
            /\ truncateString r 20 = Some r.
Proof.
  split; [lia|].
  apply (proj2 (truncateString_idempotent sample_name 20)). lia.
Defined.

(** C9: for [maxLen >= 0], a string whose display width (escape sequences
    left out) exceeds [maxLen] is truncated to a result of display width at
    most [maxLen], and a string whose display width is at most [maxLen] is
    returned unchanged. *)
Theorem truncateString_display_width (s : bytes) (maxLen : Z) :
  0 <= maxLen ->
  (maxLen < displayWidth s ->
     exists r, truncateString s maxLen = Some r /\ displayWidth r <= maxLen)
  /\ (displayWidth s <= maxLen -> truncateString s maxLen = Some s).
Proof.
  intros Hpos. split.
  - intros _. destruct (truncateString_returns s maxLen Hpos) as [r Hr].
    exists r. split; [done|]. by eapply truncateString_width.
  - apply truncateString_fits.
Qed.

Lemma truncateString_display_width_witness :
  0 <= 20 /\ 20 < displayWidth sample_name /\
  exists r, truncateString sample_name 20 = Some r /\ displayWidth r <= 20.
Proof.
  split; [lia|]. split; [vm_compute; reflexivity|].
  apply (proj1 (truncateString_display_width sample_name 20 ltac:(lia))).
  vm_compute. reflexivity.
Defined.

(* ===================================================================== *)
(** * Properties of the grouping engine *)
(* ===================================================================== *)


Section Grouping.

Lemma buildGroupMap_snoc devices device :
  buildGroupMap (devices ++ [device])
  = addDevice (buildGroupMap devices) device.
Proof. apply foldl_snoc. Qed.

Lemma buildGroupMap_lookup devices k :
  buildGroupMap devices !! k = groupOf devices k.
Proof.
  revert k.
  induction devices as [|device devices IH] using rev_ind; intros k; [done|].
  rewrite buildGroupMap_snoc. unfold addDevice.
  rewrite (IH (logicalID device)).
  destruct (decide (logicalID device = k)) as [<-|Hk].
  - unfold groupOf. rewrite filter_app.
    rewrite (filter_cons_True (fun d => logicalID d = logicalID device))
      by done.
    rewrite filter_nil.
    destruct (filter (fun d => logicalID d = logicalID device) devices);
      simpl; by rewrite lookup_insert_eq.
  - assert (groupOf (devices ++ [device]) k = groupOf devices k) as ->.
    { unfold groupOf. rewrite filter_app.
      rewrite (filter_cons_False (fun d => logicalID d = k)) by done.
      by rewrite filter_nil, app_nil_r. }
    destruct (groupOf devices (logicalID device));
      by rewrite lookup_insert_ne, IH.
Qed.

Lemma groupOf_Some devices k g :
  groupOf devices k = Some g ->
  groupID g = k
  /\ grp_PhysicalDevices g = filter (fun d => logicalID d = k) devices
  /\ (exists d0, head (grp_PhysicalDevices g) = Some d0
                 /\ grp_LogicalDevice g = pd_LogicalDevice d0)
  /\ IsCluster g = false /\ ActiveNode g = None /\ StandbyNodes g = [].
Proof.
  unfold groupOf.
  destruct (filter (fun d => logicalID d = k) devices) as [|d0 ds] eqn:Hf;
    [done|].
  intros [= <-]. simpl. split_and!; eauto.
  assert (d0 ∈ filter (fun d => logicalID d = k) devices) as Hin.
  { rewrite Hf. left. }
  apply list_elem_of_filter in Hin as [Hid _]. exact Hid.
Qed.

Lemma groupOf_member devices d :
  d ∈ devices -> is_Some (groupOf devices (logicalID d)).
Proof.
  intros Hd. unfold groupOf.
  destruct (filter (fun x => logicalID x = logicalID d) devices) eqn:Hf;
    [|done].
  assert (d ∈ filter (fun x => logicalID x = logicalID d) devices) as Hin.
  { by apply list_elem_of_filter. }
  rewrite Hf in Hin. by apply elem_of_nil in Hin.
Qed.

(** The scan of the members of a cluster group. *)
Lemma foldl_noteRole members active standby :
  foldl noteRole (active, standby) members
  = (match last (filter (fun d => isActive d = true) members) with
     | Some d => Some d
     | None => active
     end,
     standby ++ filter (fun d => isStandby d = true) members).
Proof.
  revert active standby.
  induction members as [|d members IH] using rev_ind; intros active standby.
  { simpl. by rewrite app_nil_r. }
  rewrite foldl_snoc, IH, !filter_app. unfold noteRole at 1.
  assert (isActive d = true -> isStandby d = false) as Hexcl.
  { unfold isActive, isStandby, hasRole. destruct (pd_AsNode d); [|done].
    intros ->%String.eqb_eq. done. }
  destruct (isActive d) eqn:Ha.
  - rewrite (filter_cons_True (fun d => isActive d = true)) by done.
    rewrite filter_nil, last_snoc.
    rewrite (filter_cons_False (fun d => isStandby d = true))
      by (rewrite Hexcl; done).
    by rewrite filter_nil, app_nil_r.
  - rewrite (filter_cons_False (fun d => isActive d = true))
      by (rewrite Ha; done).
    rewrite filter_nil, app_nil_r.
    destruct (isStandby d) eqn:Hs.
    + rewrite (filter_cons_True (fun d => isStandby d = true)) by done.
      by rewrite filter_nil, (assoc_L (++)).
    + rewrite (filter_cons_False (fun d => isStandby d = true))
        by (rewrite Hs; done).
      by rewrite filter_nil, app_nil_r.
Qed.

Lemma analyzeGroup_fresh g :
  ActiveNode g = None -> StandbyNodes g = [] ->
  grp_LogicalDevice (analyzeGroup g) = grp_LogicalDevice g
  /\ grp_PhysicalDevices (analyzeGroup g) = grp_PhysicalDevices g
  /\ IsCluster (analyzeGroup g)
     = isClusterTopology (ld_TopologyType (grp_LogicalDevice g))
  /\ ActiveNode (analyzeGroup g)
     = (if IsCluster (analyzeGroup g)
        then last (filter (fun d => isActive d = true) (grp_PhysicalDevices g))
        else None)
  /\ StandbyNodes (analyzeGroup g)
     = (if IsCluster (analyzeGroup g)
        then filter (fun d => isStandby d = true) (grp_PhysicalDevices g)
        else []).
Proof.
  intros Ha Hs. unfold analyzeGroup, isClusterTopology.
  destruct (_ || _); simpl; [|done].
  rewrite Ha, Hs, foldl_noteRole. simpl. split_and!; try done.
  by destruct (last _).
Qed.

(** Cutting a list by the value of a key, one piece for each of the
    distinct keys, loses and repeats nothing. *)
Lemma concat_filter_keys {A K} `{EqDecision K} (key : A -> K)
    (keys : list K) (l : list A) :
  NoDup keys -> (forall x, x ∈ l -> key x ∈ keys) ->
  concat ((fun k => filter (fun x => key x = k) l) <$> keys) ≡ₚ l.
Proof.
  intros Hnd. revert l. induction Hnd as [|k ks Hk Hnd IH]; intros l Hl.
  - destruct l as [|x l]; [done|].
    exfalso. eapply elem_of_nil, (Hl x). left.
  - rewrite fmap_cons. simpl.
    etrans; [|apply (filter_app_complement (fun x => key x = k) l)].
    apply Permutation_app_head.
    assert ((fun k0 => filter (fun x => key x = k0) l) <$> ks
            = (fun k0 => filter (fun x => key x = k0)
                           (filter (fun x => key x ≠ k) l)) <$> ks) as ->.
    { apply Forall_fmap_ext, Forall_forall. intros k' Hk'.
      symmetry. apply list_filter_filter_l. intros x -> ->. done. }
    apply IH. intros x [Hx Hin]%list_elem_of_filter.
    specialize (Hl x Hin). apply elem_of_cons in Hl as [?|?]; done.
Qed.

Lemma length_concat_fmap {A B} (f : A -> list B) (l : list A) :
  length (concat (f <$> l)) = sum_list_with (fun x => length (f x)) l.
Proof.
  induction l as [|x l IH]; [done|].
  rewrite fmap_cons. simpl. by rewrite length_app, IH.
Qed.

Lemma NoDup_fmap_eq {A B} (f : A -> B) (l : list A) x y :
  NoDup (f <$> l) -> x ∈ l -> y ∈ l -> f x = f y -> x = y.
Proof.
  induction l as [|z l IH]; [by intros _ ?%elem_of_nil|].
  rewrite fmap_cons, NoDup_cons.
  intros [Hz Hnd] [->|Hx]%elem_of_cons [->|Hy]%elem_of_cons Heq; try done.
  - exfalso. apply Hz. rewrite Heq. by apply list_elem_of_fmap_2.
  - exfalso. apply Hz. rewrite <- Heq. by apply list_elem_of_fmap_2.
  - by apply IH.
Qed.

Variable rangeOrder : RangeOrder.
Hypothesis range_valid : validRange rangeOrder.
Variable now : Time.
Variable response : APIResponse.

(** A group of the result is the analysis of the group built for its id. *)
Lemma groups_elem g :
  g ∈ LogicalDeviceGroups (GroupDevicesByLogicalDevice rangeOrder now response)
  <-> exists k g0, groupOf (PhysicalDevices response) k = Some g0
                   /\ g = analyzeGroup g0.
Proof.
  unfold GroupDevicesByLogicalDevice. simpl.
  rewrite list_elem_of_fmap. split.
  - intros ([k g0] & -> & Hin). rewrite (range_valid _) in Hin.
    apply elem_of_map_to_list in Hin. rewrite buildGroupMap_lookup in Hin.
    eauto.
  - intros (k & g0 & Hk & ->). exists (k, g0). split; [done|].
    rewrite (range_valid _). apply elem_of_map_to_list.
    by rewrite buildGroupMap_lookup.
Qed.

(** What the result holds for a group, in terms of the fetched list. *)
Lemma groups_elem_spec g :
  g ∈ LogicalDeviceGroups (GroupDevicesByLogicalDevice rangeOrder now response)
  -> grp_PhysicalDevices g
     = filter (fun d => logicalID d = groupID g) (PhysicalDevices response)
  /\ (exists d0, head (grp_PhysicalDevices g) = Some d0
                 /\ grp_LogicalDevice g = pd_LogicalDevice d0)
  /\ IsCluster g = isClusterTopology (ld_TopologyType (grp_LogicalDevice g))
  /\ ActiveNode g
     = (if IsCluster g
        then last (filter (fun d => isActive d = true) (grp_PhysicalDevices g))
        else None)
  /\ StandbyNodes g
     = (if IsCluster g
        then filter (fun d => isStandby d = true) (grp_PhysicalDevices g)
        else []).
Proof.
  intros (k & g0 & Hg0 & ->)%groups_elem.
  apply groupOf_Some in Hg0 as (Hid & Hmem & Hfirst & _ & Ha & Hs).
  destruct (analyzeGroup_fresh g0 Ha Hs) as (HL & HP & HC & HA & HS).
  unfold groupID. rewrite HP, HL. unfold groupID in Hid. rewrite Hid.
  split_and!; done.
Qed.

Lemma groups_ids_NoDup :
  NoDup (groupID <$> LogicalDeviceGroups
                       (GroupDevicesByLogicalDevice rangeOrder now response)).
Proof.
  unfold GroupDevicesByLogicalDevice. simpl.
  rewrite <- list_fmap_compose.
  assert ((groupID ∘ (fun entry : string * LogicalDeviceGroup =>
                        analyzeGroup entry.2))
            <$> rangeOrder (map_to_list
                              (buildGroupMap (PhysicalDevices response)))
          = (rangeOrder (map_to_list
                           (buildGroupMap (PhysicalDevices response)))).*1)
    as ->.
  { apply Forall_fmap_ext, Forall_forall. intros [k g0] Hin.
    rewrite (range_valid _) in Hin.
    apply elem_of_map_to_list in Hin. rewrite buildGroupMap_lookup in Hin.
    apply groupOf_Some in Hin as (Hid & _ & _ & _ & Ha & Hs).
    destruct (analyzeGroup_fresh g0 Ha Hs) as (HL & _).
    simpl. unfold groupID. by rewrite HL. }
  rewrite (range_valid _). apply NoDup_fst_map_to_list.
Qed.

Lemma groups_cover d :
  d ∈ PhysicalDevices response ->
  exists g,
    g ∈ LogicalDeviceGroups
          (GroupDevicesByLogicalDevice rangeOrder now response)
    /\ groupID g = logicalID d.
Proof.
  intros Hd. destruct (groupOf_member _ _ Hd) as [g0 Hg0].
  exists (analyzeGroup g0). split.
  - apply groups_elem. eauto.
  - apply groupOf_Some in Hg0 as (Hid & _ & _ & _ & Ha & Hs).
    destruct (analyzeGroup_fresh g0 Ha Hs) as (HL & _).
    unfold groupID in *. by rewrite HL.
Qed.

Lemma groups_partition :
  concat (grp_PhysicalDevices
            <$> LogicalDeviceGroups
                  (GroupDevicesByLogicalDevice rangeOrder now response))
  ≡ₚ PhysicalDevices response.
Proof.
  assert (grp_PhysicalDevices
            <$> LogicalDeviceGroups
                  (GroupDevicesByLogicalDevice rangeOrder now response)
          = (fun k => filter (fun d => logicalID d = k)
                        (PhysicalDevices response))
              <$> (groupID <$> LogicalDeviceGroups
                     (GroupDevicesByLogicalDevice rangeOrder now response)))
    as ->.
  { rewrite <- list_fmap_compose. apply Forall_fmap_ext, Forall_forall.
    intros g Hg. by apply groups_elem_spec in Hg as (-> & _). }
  apply concat_filter_keys; [apply groups_ids_NoDup|].
  intros d (g & Hg & <-)%groups_cover. by apply list_elem_of_fmap_2.
Qed.

End Grouping.

Lemma rangeForward_valid : validRange rangeForward.
Proof. intros entries. reflexivity. Qed.

Lemma rangeBackward_valid : validRange rangeBackward.
Proof. intros entries. apply reverse_Permutation. Qed.

(** C3, as stated, fails: a cluster group with two members of role active
    gets the second one as its [ActiveNode], not the first. *)
Lemma active_node_is_not_the_first :
  exists g,
    LogicalDeviceGroups
      (GroupDevicesByLogicalDevice rangeForward 0
         (fetched [node_a; node_b; node_c])) = [g]
    /\ IsCluster g = true
    /\ ActiveNode g = Some node_b
    /\ ~ first_active_designated g.
Proof.
  exists {| grp_LogicalDevice := L1;
            grp_PhysicalDevices := [node_a; node_b; node_c];
            IsCluster := true;
            ActiveNode := Some node_b;
            StandbyNodes := [node_c] |}.
  split_and!; [vm_compute; reflexivity|done|done|].
  unfold first_active_designated. vm_compute. discriminate.
Qed.

(** C3, amended: in every group whose cluster flag is true, [ActiveNode] is
    the last member in fetch order whose node-role is active (none if no
    member is active; one at most, as it is a single optional node), and
    [StandbyNodes] is exactly the members whose node-role is standby, in
    fetch order; members with neither role stay members, the member list
    being all devices of the group's id whatever their role.  In a group
    whose cluster flag is false there is no active node and no standby
    node. *)
Theorem cluster_roles (rangeOrder : RangeOrder) (now : Time)
    (response : APIResponse) (g : LogicalDeviceGroup) :
  validRange rangeOrder ->
  g ∈ LogicalDeviceGroups (GroupDevicesByLogicalDevice rangeOrder now response)
  ->
  grp_PhysicalDevices g
  = filter (fun d => logicalID d = groupID g) (PhysicalDevices response)
  /\ (IsCluster g = true ->
        ActiveNode g
        = last (filter (fun d => isActive d = true) (grp_PhysicalDevices g))
        /\ StandbyNodes g
           = filter (fun d => isStandby d = true) (grp_PhysicalDevices g))
  /\ (IsCluster g = false -> ActiveNode g = None /\ StandbyNodes g = []).
Proof.
  intros Hvalid Hg.
  destruct (groups_elem_spec _ Hvalid _ _ _ Hg) as (Hmem & _ & _ & Ha & Hs).
  split; [done|]. split; intros Hc; rewrite Hc in Ha, Hs; done.
Qed.

Lemma cluster_roles_witness :
  let g := {| grp_LogicalDevice := L1;
              grp_PhysicalDevices := [node_a; node_b; node_c];
              IsCluster := true;
              ActiveNode := Some node_b;
              StandbyNodes := [node_c] |} in
  validRange rangeForward
  /\ g ∈ LogicalDeviceGroups
           (GroupDevicesByLogicalDevice rangeForward 0
              (fetched [node_a; box_e; node_b; node_c]))
  /\ (IsCluster g = true ->
        ActiveNode g
        = last (filter (fun d => isActive d = true) (grp_PhysicalDevices g))
        /\ StandbyNodes g
           = filter (fun d => isStandby d = true) (grp_PhysicalDevices g)).
Proof.
  intros g.
  assert (validRange rangeForward) as Hvalid by (intros entries; reflexivity).
  assert (g ∈ LogicalDeviceGroups
                (GroupDevicesByLogicalDevice rangeForward 0
                   (fetched [node_a; box_e; node_b; node_c]))) as Hg.
  { vm_compute. apply list_elem_of_In. simpl. tauto. }
  split; [exact Hvalid|]. split; [exact Hg|].
  exact (proj1 (proj2 (cluster_roles rangeForward 0
                         (fetched [node_a; box_e; node_b; node_c]) g
                         Hvalid Hg))).
Defined.

(** C4: the groups partition the fetched devices.  Every device lies in a
    group, that group carries the device's own logical-device id, and no
    other group holds the device; the members of all groups together are
    the fetched devices, each as often as fetched, so the member counts add
    up to the length of the fetched list; and the members of a group are
    the devices of its id in the order of the fetched list. *)
Theorem grouping_partitions (rangeOrder : RangeOrder) (now : Time)
    (response : APIResponse) :
  validRange rangeOrder ->
  let devices := PhysicalDevices response in
  let groups :=
    LogicalDeviceGroups (GroupDevicesByLogicalDevice rangeOrder now response) in
  (forall d, d ∈ devices ->
     exists g, g ∈ groups
               /\ d ∈ grp_PhysicalDevices g
               /\ groupID g = logicalID d
               /\ forall g', g' ∈ groups -> d ∈ grp_PhysicalDevices g' -> g' = g)
  /\ concat (grp_PhysicalDevices <$> groups) ≡ₚ devices
  /\ sum_list_with (fun g => length (grp_PhysicalDevices g)) groups
     = length devices
  /\ (forall g, g ∈ groups ->
        grp_PhysicalDevices g
        = filter (fun d => logicalID d = groupID g) devices).
Proof.
  intros Hvalid devices groups.
  assert (forall g, g ∈ groups ->
            grp_PhysicalDevices g
            = filter (fun d => logicalID d = groupID g) devices) as Hmem.
  { intros g Hg.
    by apply (groups_elem_spec rangeOrder Hvalid now response g Hg). }
  split_and!;
    [|exact (groups_partition rangeOrder Hvalid now response)| |done].
  - intros d Hd.
    destruct (groups_cover rangeOrder Hvalid now response d Hd)
      as (g & Hg & Hid).
    exists g. split_and!; [done| |done|].
    + rewrite (Hmem g Hg). by apply list_elem_of_filter.
    + intros g' Hg' Hd'. rewrite (Hmem g' Hg') in Hd'.
      apply list_elem_of_filter in Hd' as [Hid' _].
      eapply (NoDup_fmap_eq groupID);
        [exact (groups_ids_NoDup rangeOrder Hvalid now response)|done..|].
      congruence.
  - rewrite <- (length_concat_fmap grp_PhysicalDevices).
    apply Permutation_length.
    exact (groups_partition rangeOrder Hvalid now response).
Qed.

Lemma grouping_partitions_witness :
  validRange rangeBackward
  /\ sum_list_with (fun g => length (grp_PhysicalDevices g))
       (LogicalDeviceGroups
          (GroupDevicesByLogicalDevice rangeBackward 0
             (fetched [node_a; box_e; node_b; node_c; node_d])))
     = 5%nat.
Proof.
  assert (validRange rangeBackward) as Hvalid
    by (intros entries; apply reverse_Permutation).
  split; [exact Hvalid|].
  exact (proj1 (proj2 (proj2
    (grouping_partitions rangeBackward 0
       (fetched [node_a; box_e; node_b; node_c; node_d]) Hvalid)))).
Defined.

(** C5, as stated, fails: two calls on the same response may visit the map
    in different orders and return the groups in different orders. *)
Lemma two_calls_differ_in_order :
  validRange rangeForward /\ validRange rangeBackward
  /\ GroupDevicesByLogicalDevice rangeForward 0 (fetched [node_a; box_e])
     <> GroupDevicesByLogicalDevice rangeBackward 0 (fetched [node_a; box_e]).
Proof.
  split; [apply rangeForward_valid|]. split; [apply rangeBackward_valid|].
  intros H.
  apply (f_equal (fun out => groupID <$> LogicalDeviceGroups out)) in H.
  vm_compute in H. discriminate.
Qed.

(** C5, amended: two calls on the same response return the same groups,
    each with the same contents, up to the order of the groups in the list,
    and the same device total; [LastUpdated] is the time of each call. *)
Theorem grouping_twice (order1 order2 : RangeOrder) (now1 now2 : Time)
    (response : APIResponse) :
  validRange order1 -> validRange order2 ->
  LogicalDeviceGroups (GroupDevicesByLogicalDevice order1 now1 response)
  ≡ₚ LogicalDeviceGroups (GroupDevicesByLogicalDevice order2 now2 response)
  /\ TotalDevices (GroupDevicesByLogicalDevice order1 now1 response)
     = TotalDevices (GroupDevicesByLogicalDevice order2 now2 response)
  /\ LastUpdated (GroupDevicesByLogicalDevice order1 now1 response) = now1
  /\ LastUpdated (GroupDevicesByLogicalDevice order2 now2 response) = now2.
Proof.
  intros H1 H2. unfold GroupDevicesByLogicalDevice. simpl.
  split; [|done]. by rewrite (H1 _), (H2 _).
Qed.

Lemma grouping_twice_witness :
  validRange rangeForward /\ validRange rangeBackward
  /\ LogicalDeviceGroups
       (GroupDevicesByLogicalDevice rangeForward 1 (fetched [node_a; box_e]))
     ≡ₚ LogicalDeviceGroups
          (GroupDevicesByLogicalDevice rangeBackward 2
             (fetched [node_a; box_e])).
Proof.
  assert (validRange rangeForward) as H1 by (intros entries; reflexivity).
  assert (validRange rangeBackward) as H2
    by (intros entries; apply reverse_Permutation).
  split; [exact H1|]. split; [exact H2|].
  exact (proj1 (grouping_twice rangeForward rangeBackward 1 2
                  (fetched [node_a; box_e]) H1 H2)).
Defined.

(** C10: the group of a device takes its [LogicalDevice] record from the
    first device, in fetch order, that has the same logical-device id; the
    records the later devices of that id carry play no part, and the
    cluster flag is computed from the topology type of that first record. *)
Theorem group_metadata_from_first (rangeOrder : RangeOrder) (now : Time)
    (response : APIResponse) (d : PhysicalDevice) :
  validRange rangeOrder ->
  d ∈ PhysicalDevices response ->
  exists g d0,
    g ∈ LogicalDeviceGroups (GroupDevicesByLogicalDevice rangeOrder now response)
    /\ d ∈ grp_PhysicalDevices g
    /\ head (filter (fun x => logicalID x = logicalID d)
               (PhysicalDevices response)) = Some d0
    /\ grp_LogicalDevice g = pd_LogicalDevice d0
    /\ IsCluster g = isClusterTopology (ld_TopologyType (pd_LogicalDevice d0)).
Proof.
  intros Hvalid Hd.
  destruct (groups_cover rangeOrder Hvalid now response d Hd)
    as (g & Hg & Hid).
  destruct (groups_elem_spec rangeOrder Hvalid now response g Hg)
    as (Hmem & (d0 & Hhead & HL) & HC & _).
  exists g, d0. rewrite Hid in Hmem. rewrite <- Hmem, <- HL.
  split_and!; try done.
  rewrite Hmem. by apply list_elem_of_filter.
Qed.

Lemma group_metadata_from_first_witness :
  validRange rangeForward
  /\ node_d ∈ [node_a; node_d]
  /\ exists g d0,
       g ∈ LogicalDeviceGroups
             (GroupDevicesByLogicalDevice rangeForward 0
                (fetched [node_a; node_d]))
       /\ node_d ∈ grp_PhysicalDevices g
       /\ head (filter (fun x => logicalID x = logicalID node_d)
                  [node_a; node_d]) = Some d0
       /\ grp_LogicalDevice g = pd_LogicalDevice d0
       /\ IsCluster g
          = isClusterTopology (ld_TopologyType (pd_LogicalDevice d0)).
Proof.
  assert (validRange rangeForward) as Hvalid by (intros entries; reflexivity).
  assert (node_d ∈ [node_a; node_d]) as Hd.
  { apply list_elem_of_In. simpl. tauto. }
  split; [exact Hvalid|]. split; [exact Hd|].
  exact (group_metadata_from_first rangeForward 0 (fetched [node_a; node_d])
           node_d Hvalid Hd).
Defined.

(** The later record is ignored: [node_d] carries [L1'], a standalone
    record under the id of [L1]; its group is the cluster of [node_a]. *)
Example later_metadata_ignored :
  forall g,
    g ∈ LogicalDeviceGroups
          (GroupDevicesByLogicalDevice rangeForward 0
             (fetched [node_a; node_d])) ->
    grp_LogicalDevice g = L1 /\ IsCluster g = true
    /\ grp_PhysicalDevices g = [node_a; node_d].
Proof.
  intros g Hg. vm_compute in Hg. apply list_elem_of_In in Hg.
  destruct Hg as [<-|[]]. done.
Qed.

(* ===================================================================== *)
(** * Properties of the session client *)
(* ===================================================================== *)

Section ClientFacts.
Variable env : Env.

Lemma takeAuthCookie_run cookies w :
  takeAuthCookie cookies w
  = (tt, match List.find isAuthCookie cookies with
         | Some cookie =>
             {| ac := set_auth (Some cookie) true (ac w); trace := trace w |}
         | None => w
         end).
Proof.
  induction cookies as [|cookie rest IH]; [done|]. simpl.
  by destruct (isAuthCookie cookie).
Qed.

(** [Login], case by case. *)
Lemma Login_run login password w :
  Login env login password w
  = let w1 := after w [EvCall (FnLogin login password)] in
    let req := loginRequest (ac w) (LoginRequest login password) in
    let w2 := after w1 [EvRequest req] in
    match env_NewRequestErr env (loginEndpoint (ac w)) with
    | Some e =>
        (Some (wrapError "failed to create login request" (errorString e)),
         w1)
    | None =>
        match env_Do env (trace w1) req with
        | inl e =>
            (Some (wrapError "failed to execute login request"
                     (errorString e)), w2)
        | inr resp =>
            if negb (resp_StatusCode resp =? StatusOK) then
              (Some (APIError (resp_StatusCode resp) (resp_Body resp)
                       (loginEndpoint (ac w))), w2)
            else
              match List.find isAuthCookie (resp_Cookies resp) with
              | Some cookie =>
                  (None, {| ac := set_auth (Some cookie) true (ac w);
                            trace := trace w2 |})
              | None =>
                  (if negb (authenticated (ac w))
                   then Some (errorString
                     "no Authorization cookie received from login response")
                   else None, w2)
              end
        end
    end.
Proof.
  unfold Login, bind, emit, get_ac, Do, ret, after. simpl.
  destruct (env_NewRequestErr env (loginEndpoint (ac w))); [done|].
  destruct (env_Do env _ _) as [e|resp]; [done|].
  destruct (negb (resp_StatusCode resp =? StatusOK)); [done|].
  rewrite takeAuthCookie_run.
  destruct (List.find isAuthCookie (resp_Cookies resp)); simpl; [done|].
  by destruct (negb (authenticated (ac w))).
Qed.

Lemma makeDevicesRequest_run jsonData w :
  makeDevicesRequest env jsonData w
  = let req := devicesRequest (ac w) jsonData in
    match env_NewRequestErr env (devicesEndpoint (ac w)) with
    | Some e =>
        (inl (wrapError "failed to create request" (errorString e)), w)
    | None =>
        match env_Do env (trace w) req with
        | inl e =>
            (inl (wrapError "failed to execute request" (errorString e)),
             after w [EvRequest req])
        | inr resp =>
            (devicesResult env (devicesEndpoint (ac w)) resp,
             after w [EvRequest req])
        end
    end.
Proof.
  unfold makeDevicesRequest, devicesResult, bind, get_ac, Do, ret, after.
  simpl.
  destruct (env_NewRequestErr env (devicesEndpoint (ac w))); [done|].
  destruct (env_Do env _ _) as [e|resp]; [done|].
  destruct (resp_StatusCode resp =? StatusUnauthorized); [done|].
  destruct (negb (resp_StatusCode resp =? StatusOK)); [done|].
  destruct (resp_ReadErr resp); [done|].
  by destruct (env_Unmarshal env (resp_Body resp)).
Qed.

Lemma FetchDevices_run w :
  FetchDevices env w
  = let w0 := after w [EvCall FnFetchDevices] in
    if negb (authenticated (ac w)) then
      (inl (errorString "not authenticated - please login first"), w0)
    else
      let first_try := makeDevicesRequest env (LimitData 10000) w0 in
      match first_try.1 with
      | inr response => (inr response, first_try.2)
      | inl err =>
          if isUnauthorized err then
            let c1 := ac first_try.2 in
            let cleared := {| ac := set_auth (authCookie c1) false c1;
                              trace := trace first_try.2 |} in
            let relogin :=
              Login env (Username (config c1)) (Password (config c1))
                cleared in
            match relogin.1 with
            | Some e =>
                (inl (wrapError "failed to re-authenticate" e), relogin.2)
            | None =>
                let retry :=
                  makeDevicesRequest env (LimitData 10000) relogin.2 in
                match retry.1 with
                | inl err' =>
                    (inl (wrapError "failed after re-authentication" err'),
                     retry.2)
                | inr response => (inr response, retry.2)
                end
            end
          else (inl err, first_try.2)
      end.
Proof.
  unfold FetchDevices, bind, emit, get_ac, put_ac, ret, after.
  cbv zeta. cbn [ac trace].
  destruct (negb (authenticated (ac w))); [done|].
  destruct (makeDevicesRequest env _ _) as [[err|response] w1];
    cbn [fst snd]; [|done].
  destruct (isUnauthorized err); [|done].
  destruct (Login env _ _ _) as [[e|] w3]; cbn [fst snd]; [done|].
  by destruct (makeDevicesRequest env _ w3) as [[err'|response] w4].
Qed.

Lemma countb_app {A} (p : A -> bool) l1 l2 :
  countb p (l1 ++ l2) = (countb p l1 + countb p l2)%nat.
Proof. unfold countb. by rewrite List.filter_app, length_app. Qed.

(** [Login] enters once, sends at most its own request and leaves the
    endpoints and the configuration alone. *)
Lemma Login_frame login password w :
  let w' := (Login env login password w).2 in
  exists es,
    trace w' = trace w ++ EvCall (FnLogin login password) :: es
    /\ (es = [] \/
        es = [EvRequest (loginRequest (ac w) (LoginRequest login password))])
    /\ devicesEndpoint (ac w') = devicesEndpoint (ac w)
    /\ config (ac w') = config (ac w).
Proof.
  rewrite Login_run. cbv zeta. unfold after. cbn [ac trace].
  destruct (env_NewRequestErr env (loginEndpoint (ac w))).
  { exists []. auto. }
  set (req := loginRequest (ac w) (LoginRequest login password)).
  assert ((trace w ++ [EvCall (FnLogin login password)]) ++ [EvRequest req]
          = trace w ++ EvCall (FnLogin login password) :: [EvRequest req])
    as Htr by (by rewrite <- (assoc_L (++))).
  destruct (env_Do env _ req) as [e|resp];
    [exists [EvRequest req]; auto|].
  destruct (negb (resp_StatusCode resp =? StatusOK));
    [exists [EvRequest req]; auto|].
  destruct (List.find isAuthCookie (resp_Cookies resp));
    exists [EvRequest req]; auto.
Qed.

(** A [Login] that returns no error leaves the client authenticated. *)
Lemma Login_ok_authenticated login password w :
  (Login env login password w).1 = None ->
  authenticated (ac (Login env login password w).2) = true.
Proof.
  rewrite Login_run. cbv zeta.
  destruct (env_NewRequestErr env (loginEndpoint (ac w))); [done|].
  destruct (env_Do env _ _) as [e|resp]; [done|].
  destruct (negb (resp_StatusCode resp =? StatusOK)); [done|].
  destruct (List.find isAuthCookie (resp_Cookies resp)); [done|].
  unfold after. cbn [fst snd ac]. destruct (authenticated (ac w)); done.
Qed.

End ClientFacts.

(** C6, as stated, fails: a 200 response whose cookie is named
    "authorization" carries the canonical name up to letter case, yet
    [Login] fails and the client stays unauthenticated. *)
Lemma Login_cookie_name_is_case_sensitive :
  EqualFold (cookie_Name lowercase_cookie) "Authorization" = true
  /\ (Login (env_cookie lowercase_cookie) "admin" "secret" fresh_world).1
     = Some (errorString
               "no Authorization cookie received from login response")
  /\ authenticated
       (ac (Login (env_cookie lowercase_cookie) "admin" "secret"
              fresh_world).2) = false
  /\ authCookie
       (ac (Login (env_cookie lowercase_cookie) "admin" "secret"
              fresh_world).2) = None.
Proof. split_and!; vm_compute; reflexivity. Qed.

(** C6, amended: for a [Login] call on a client that is not authenticated,
    whose request receives a response: if the status is not 200, or no
    cookie of the response is named exactly "Authorization" or
    "Autorization" (letter case included), the call fails with an error
    and the client stays unauthenticated; if the status is 200 and some
    cookie has one of these two names, the first such cookie is stored, the
    client is marked authenticated and the call returns no error. *)
Theorem Login_outcome (env : Env) (login password : string) (w : World)
    (resp : Response) :
  authenticated (ac w) = false ->
  env_NewRequestErr env (loginEndpoint (ac w)) = None ->
  env_Do env (trace w ++ [EvCall (FnLogin login password)])
    (loginRequest (ac w) (LoginRequest login password)) = inr resp ->
  let out := Login env login password w in
  (resp_StatusCode resp <> StatusOK ->
     out.1 = Some (APIError (resp_StatusCode resp) (resp_Body resp)
                     (loginEndpoint (ac w)))
     /\ authenticated (ac out.2) = false)
  /\ (resp_StatusCode resp = StatusOK ->
      List.find isAuthCookie (resp_Cookies resp) = None ->
      out.1 = Some (errorString
                      "no Authorization cookie received from login response")
      /\ authenticated (ac out.2) = false)
  /\ (resp_StatusCode resp = StatusOK ->
      forall cookie,
        List.find isAuthCookie (resp_Cookies resp) = Some cookie ->
        out.1 = None
        /\ authCookie (ac out.2) = Some cookie
        /\ authenticated (ac out.2) = true).
Proof.
  intros Hflag Hurl Hdo out. subst out. rewrite Login_run. cbv zeta.
  unfold after. cbn [trace ac]. rewrite Hurl, Hdo.
  split_and!.
  - intros Hst. apply Z.eqb_neq in Hst. rewrite Hst.
    cbn [negb fst snd after ac]. done.
  - intros Hst Hnone. apply Z.eqb_eq in Hst. rewrite Hst, Hnone, Hflag.
    cbn [negb fst snd after ac]. done.
  - intros Hst cookie Hsome. apply Z.eqb_eq in Hst. rewrite Hst, Hsome.
    cbn [negb fst snd after ac]. done.
Qed.

Lemma Login_outcome_witness :
  authenticated (ac fresh_world) = false
  /\ (Login (env_cookie misspelt_cookie) "admin" "secret" fresh_world).1 = None
  /\ authCookie
       (ac (Login (env_cookie misspelt_cookie) "admin" "secret"
              fresh_world).2) = Some misspelt_cookie
  /\ authenticated
       (ac (Login (env_cookie misspelt_cookie) "admin" "secret"
              fresh_world).2) = true.
Proof.
  split; [reflexivity|].
  apply (proj2 (proj2
    (Login_outcome (env_cookie misspelt_cookie) "admin" "secret" fresh_world
       (plain_response 200 [misspelt_cookie])
       eq_refl eq_refl eq_refl)));
    reflexivity.
Defined.

(** The flag at entry matters: on a client that is already authenticated, a
    200 response without a session cookie makes [Login] return no error. *)
Example Login_on_authenticated_client :
  let w := {| ac := set_auth (Some misspelt_cookie) true
                      (NewAPIClient sample_config);
              trace := [] |} in
  (Login (env_cookie lowercase_cookie) "admin" "secret" w).1 = None.
Proof. vm_compute. reflexivity. Qed.

(** Counts of events in traces built by appending: split the appends,
    evaluate the tests on the events that are known, and leave the
    arithmetic to [lia]. *)
Ltac count_events :=
  unfold countb in *; rewrite ?List.filter_app, ?length_app; simpl; lia.

(** C1: a [FetchDevices] call on an authenticated client whose first
    devices request is answered with 401 clears the authenticated flag,
    calls [Login] exactly once, with the credentials of the configuration,
    and:
    - if that [Login] fails, returns its error (wrapped) without sending
      another devices request;
    - if it succeeds, sends the devices request exactly once more; an error
      of this second request is returned (wrapped); a 200 response whose
      body is read and parsed makes the call return the parsed device list,
      and the client is authenticated afterwards. *)
Theorem FetchDevices_reauthenticates (env : Env) (w : World)
    (resp : Response) :
  authenticated (ac w) = true ->
  env_NewRequestErr env (devicesEndpoint (ac w)) = None ->
  env_Do env (trace w ++ [EvCall FnFetchDevices])
    (devicesRequest (ac w) (LimitData 10000)) = inr resp ->
  resp_StatusCode resp = StatusUnauthorized ->
  let cleared :=
    {| ac := set_auth (authCookie (ac w)) false (ac w);
       trace := trace w ++ [EvCall FnFetchDevices;
                            EvRequest (devicesRequest (ac w)
                                         (LimitData 10000))] |} in
  let relogin :=
    Login env (Username (config (ac w))) (Password (config (ac w))) cleared in
  let retry_request := devicesRequest (ac relogin.2) (LimitData 10000) in
  let out := FetchDevices env w in
  authenticated (ac cleared) = false
  /\ countb isFetchCall (trace out.2) = S (countb isFetchCall (trace w))
  /\ countb isLoginCall (trace out.2) = S (countb isLoginCall (trace w))
  /\ match relogin.1 with
     | Some e =>
         out = (inl (wrapError "failed to re-authenticate" e), relogin.2)
         /\ countb isDevicesRequest (trace out.2)
            = S (countb isDevicesRequest (trace w))
     | None =>
         trace out.2 = trace relogin.2 ++ [EvRequest retry_request]
         /\ ac out.2 = ac relogin.2
         /\ authenticated (ac out.2) = true
         /\ countb isDevicesRequest (trace out.2)
            = S (S (countb isDevicesRequest (trace w)))
         /\ match env_Do env (trace relogin.2) retry_request with
            | inl e =>
                out.1 = inl (wrapError "failed after re-authentication"
                               (wrapError "failed to execute request"
                                  (errorString e)))
            | inr resp2 =>
                match devicesResult env (devicesEndpoint (ac w)) resp2 with
                | inl e =>
                    out.1 = inl (wrapError "failed after re-authentication" e)
                | inr response => out.1 = inr response
                end
                /\ (resp_StatusCode resp2 = StatusOK ->
                    resp_ReadErr resp2 = None ->
                    forall response,
                      env_Unmarshal env (resp_Body resp2) = inr response ->
                      out.1 = inr response)
            end
     end.
Proof.
  intros Hauth Hurl Hdo H401 cleared relogin retry_request out.
  split; [done|].
  (* the first request and its 401 *)
  assert (makeDevicesRequest env (LimitData 10000)
            (after w [EvCall FnFetchDevices])
          = (inl (APIError (resp_StatusCode resp) "authentication expired"
                    (devicesEndpoint (ac w))),
             after (after w [EvCall FnFetchDevices])
               [EvRequest (devicesRequest (ac w) (LimitData 10000))]))
    as Hfirst.
  { rewrite makeDevicesRequest_run. cbv zeta. unfold after.
    cbn [ac trace]. rewrite Hurl, Hdo. unfold devicesResult.
    rewrite H401. done. }
  assert ({| ac := set_auth (authCookie (ac w)) false (ac w);
             trace := (trace w ++ [EvCall FnFetchDevices])
                      ++ [EvRequest (devicesRequest (ac w)
                                       (LimitData 10000))] |}
          = cleared) as Hcleared.
  { unfold cleared. f_equal. by rewrite <- (assoc_L (++)). }
  (* the run of FetchDevices in terms of the re-login *)
  assert (out
          = match relogin.1 with
            | Some e =>
                (inl (wrapError "failed to re-authenticate" e), relogin.2)
            | None =>
                let retry :=
                  makeDevicesRequest env (LimitData 10000) relogin.2 in
                match retry.1 with
                | inl err' =>
                    (inl (wrapError "failed after re-authentication" err'),
                     retry.2)
                | inr response => (inr response, retry.2)
                end
            end) as Hout.
  { unfold out. rewrite FetchDevices_run. cbv zeta. rewrite Hauth.
    cbn [negb]. rewrite Hfirst. cbn [fst snd]. unfold isUnauthorized.
    rewrite H401. cbn [Z.eqb Pos.eqb StatusUnauthorized].
    unfold after. cbn [ac trace]. rewrite Hcleared. done. }
  (* what the re-login leaves behind *)
  destruct (Login_frame env (Username (config (ac w)))
              (Password (config (ac w))) cleared)
    as (es & Htr & Hes & Hep & _).
  fold relogin in Htr, Hep.
  assert (countb isLoginCall es = 0%nat /\ countb isFetchCall es = 0%nat
          /\ countb isDevicesRequest es = 0%nat) as (HesL & HesF & HesD).
  { destruct Hes as [->| ->]; done. }
  assert (countb isFetchCall (trace relogin.2)
          = S (countb isFetchCall (trace w))) as HF.
  { rewrite Htr. unfold cleared. cbn [trace]. count_events. }
  assert (countb isLoginCall (trace relogin.2)
          = S (countb isLoginCall (trace w))) as HL.
  { rewrite Htr. unfold cleared. cbn [trace]. count_events. }
  assert (countb isDevicesRequest (trace relogin.2)
          = S (countb isDevicesRequest (trace w))) as HD.
  { rewrite Htr. unfold cleared. cbn [trace]. count_events. }
  pose proof (Login_ok_authenticated env (Username (config (ac w)))
                (Password (config (ac w))) cleared) as Hok.
  fold relogin in Hok.
  rewrite Hout. clear Hout.
  destruct (relogin.1) as [e|] eqn:Hre; cbn [fst snd].
  { split_and!; done. }
  specialize (Hok eq_refl).
  assert (makeDevicesRequest env (LimitData 10000) relogin.2
          = (match env_Do env (trace relogin.2) retry_request with
             | inl e =>
                 inl (wrapError "failed to execute request" (errorString e))
             | inr resp2 => devicesResult env (devicesEndpoint (ac w)) resp2
             end,
             after relogin.2 [EvRequest retry_request])) as ->.
  { rewrite makeDevicesRequest_run. cbv zeta. rewrite Hep.
    change (devicesEndpoint (ac cleared)) with (devicesEndpoint (ac w)).
    rewrite Hurl. fold retry_request.
    by destruct (env_Do env (trace relogin.2) retry_request). }
  cbv zeta. cbn [fst snd].
  assert (countb isFetchCall (trace (after relogin.2 [EvRequest retry_request]))
          = S (countb isFetchCall (trace w))
          /\ countb isLoginCall
               (trace (after relogin.2 [EvRequest retry_request]))
             = S (countb isLoginCall (trace w))
          /\ countb isDevicesRequest
               (trace (after relogin.2 [EvRequest retry_request]))
             = S (S (countb isDevicesRequest (trace w))))
    as (HF' & HL' & HD').
  { cbn [after trace]. count_events. }
  destruct (env_Do env (trace relogin.2) retry_request) as [e|resp2];
    cbn [fst snd].
  { split_and!; done. }
  destruct (devicesResult env (devicesEndpoint (ac w)) resp2)
    as [e|response] eqn:Hres; cbn [fst snd];
    (split_and!; try done);
    intros H200 Hread response' Hparse;
    unfold devicesResult in Hres;
    rewrite H200, Hread, Hparse in Hres; cbn in Hres; congruence.
Qed.

Section RetryFacts.
Variable env : Env.

Lemma policyEvents_app t1 t2 :
  policyEvents (t1 ++ t2) = policyEvents t1 ++ policyEvents t2.
Proof. apply List.filter_app. Qed.

Lemma makeDevicesRequest_frame jsonData w :
  let w' := (makeDevicesRequest env jsonData w).2 in
  ac w' = ac w
  /\ exists es, trace w' = trace w ++ es
                /\ (es = [] \/
                    es = [EvRequest (devicesRequest (ac w) jsonData)]).
Proof.
  rewrite makeDevicesRequest_run. cbv zeta.
  destruct (env_NewRequestErr env (devicesEndpoint (ac w))).
  { split; [done|]. exists []. rewrite app_nil_r. auto. }
  destruct (env_Do env (trace w) _); (split; [done|]); eauto.
Qed.

(** A call of [FetchDevices] is one entry of it and no sleep. *)
Lemma FetchDevices_frame w :
  exists es,
    trace (FetchDevices env w).2 = trace w ++ es
    /\ policyEvents es = [EvCall FnFetchDevices].
Proof.
  rewrite FetchDevices_run. cbv zeta.
  destruct (negb (authenticated (ac w))).
  { by exists [EvCall FnFetchDevices]. }
  destruct (makeDevicesRequest_frame (LimitData 10000)
              (after w [EvCall FnFetchDevices]))
    as (Hac1 & es1 & Htr1 & Hes1).
  set (first_try := makeDevicesRequest env (LimitData 10000)
                      (after w [EvCall FnFetchDevices])) in *.
  assert (trace first_try.2 = trace w ++ EvCall FnFetchDevices :: es1
          /\ policyEvents (EvCall FnFetchDevices :: es1)
             = [EvCall FnFetchDevices]) as [Htr1' Hp1].
  { rewrite Htr1. cbn [after trace]. rewrite <- (assoc_L (++)).
    split; [done|]. destruct Hes1 as [->| ->]; done. }
  destruct (first_try.1) as [err|response]; [|eauto].
  destruct (isUnauthorized err); [|eauto].
  set (cleared := {| ac := set_auth (authCookie (ac first_try.2)) false
                             (ac first_try.2);
                     trace := trace first_try.2 |}).
  destruct (Login_frame env (Username (config (ac first_try.2)))
              (Password (config (ac first_try.2))) cleared)
    as (es2 & Htr2 & Hes2 & _).
  set (relogin := Login env _ _ cleared) in *.
  assert (exists es, trace relogin.2 = trace w ++ es
                     /\ policyEvents es = [EvCall FnFetchDevices])
    as (es3 & Htr3 & Hp3).
  { exists ((EvCall FnFetchDevices :: es1)
            ++ EvCall (FnLogin (Username (config (ac first_try.2)))
                         (Password (config (ac first_try.2)))) :: es2).
    split.
    - rewrite Htr2. unfold cleared. cbn [trace]. rewrite Htr1'.
      by rewrite <- (assoc_L (++)).
    - rewrite policyEvents_app, Hp1. destruct Hes2 as [->| ->]; done. }
  destruct (relogin.1); [eauto|].
  destruct (makeDevicesRequest_frame (LimitData 10000) relogin.2)
    as (_ & es4 & Htr4 & Hes4).
  set (retry := makeDevicesRequest env (LimitData 10000) relogin.2) in *.
  assert (exists es, trace retry.2 = trace w ++ es
                     /\ policyEvents es = [EvCall FnFetchDevices])
    as Hretry.
  { exists (es3 ++ es4). rewrite Htr4, Htr3, <- (assoc_L (++)).
    split; [done|]. rewrite policyEvents_app, Hp3.
    destruct Hes4 as [->| ->]; done. }
  by destruct (retry.1).
Qed.

Lemma wrap64_small z : - 2 ^ 63 <= z < 2 ^ 63 -> wrap64 z = z.
Proof. intros H. unfold wrap64. rewrite Z.mod_small; lia. Qed.

Lemma countb_schedule n attempt :
  countb isFetchCall (schedule n attempt) = n.
Proof.
  revert attempt. induction n as [|n IH]; intros attempt; [done|].
  simpl. rewrite countb_app.
  change (countb isFetchCall (EvCall FnFetchDevices :: schedule n (attempt + 1)))
    with (S (countb isFetchCall (schedule n (attempt + 1)))).
  rewrite IH. by destruct (0 <? attempt).
Qed.

Lemma countb_policyEvents t :
  countb isFetchCall (policyEvents t) = countb isFetchCall t.
Proof.
  unfold countb, policyEvents. induction t as [|e t IH]; [done|].
  simpl. destruct e as [[]| |]; simpl; by rewrite ?IH.
Qed.

(** One round of the loop, up to the call of [FetchDevices]. *)
Lemma retryLoop_round fuel maxRetries attempt lastErr w :
  attempt <= maxRetries ->
  retryLoop env (S fuel) maxRetries attempt lastErr w
  = let call := FetchDevices env (slept attempt w) in
    match call.1 with
    | inr response => (inr response, call.2)
    | inl err =>
        if isClientError err then (inl (Some err), call.2)
        else retryLoop env fuel maxRetries (wrap64 (attempt + 1))
               (Some err) call.2
    end.
Proof.
  intros Hle. apply Z.leb_le in Hle. cbn [retryLoop]. rewrite Hle.
  unfold bind, slept, emit, ret, after.
  destruct (0 <? attempt);
    destruct (FetchDevices env _) as [[err|response] w1]; cbn [fst snd];
    try done; by destruct (isClientError err).
Qed.

Lemma slept_trace attempt w :
  - 2 ^ 63 <= attempt * Second < 2 ^ 63 ->
  trace (slept attempt w)
  = trace w ++ (if 0 <? attempt then [EvSleep (attempt * Second)] else []).
Proof.
  intros Hr. unfold slept. destruct (0 <? attempt).
  - cbn [after trace]. by rewrite wrap64_small.
  - by rewrite app_nil_r.
Qed.

(** The loop makes at most as many attempts as the condition allows, and
    sleeps [attempt] seconds before each but attempt 0. *)
Lemma retryLoop_schedule fuel maxRetries attempt lastErr w :
  0 <= attempt -> maxRetries <= 9223372036 ->
  Z.of_nat fuel + attempt = maxRetries + 1 ->
  exists es n,
    trace (retryLoop env fuel maxRetries attempt lastErr w).2
    = trace w ++ es
    /\ policyEvents es = schedule n attempt
    /\ (n <= fuel)%nat /\ (fuel <> 0%nat -> n <> 0%nat).
Proof.
  revert attempt lastErr w.
  induction fuel as [|fuel IH]; intros attempt lastErr w Hpos Hmax Hinv.
  { exists [], 0%nat. cbn [retryLoop ret snd]. rewrite app_nil_r.
    split_and!; done. }
  rewrite retryLoop_round by lia. cbv zeta.
  destruct (FetchDevices_frame (slept attempt w)) as (es1 & Htr1 & Hp1).
  assert (exists es, trace (FetchDevices env (slept attempt w)).2
                     = trace w ++ es
                     /\ policyEvents es = schedule 1 attempt)
    as (es2 & Htr2 & Hp2).
  { exists ((if 0 <? attempt then [EvSleep (attempt * Second)] else [])
            ++ es1).
    rewrite Htr1, slept_trace, <- (assoc_L (++)) by (unfold Second; lia).
    split; [done|]. rewrite policyEvents_app, Hp1. cbn [schedule].
    by destruct (0 <? attempt). }
  destruct ((FetchDevices env (slept attempt w)).1) as [err|response].
  2:{ exists es2, 1%nat. cbn [snd]. split_and!; [done..|lia|done]. }
  destruct (isClientError err).
  { exists es2, 1%nat. cbn [snd]. split_and!; [done..|lia|done]. }
  rewrite wrap64_small by lia.
  destruct (IH (attempt + 1) (Some err)
              (FetchDevices env (slept attempt w)).2)
    as (es3 & n & Htr3 & Hp3 & Hn & _); [lia..|].
  exists (es2 ++ es3), (S n).
  rewrite Htr3, Htr2, <- (assoc_L (++)), policyEvents_app, Hp2, Hp3.
  split_and!; [done| |lia|done].
  cbn [schedule]. by rewrite <- !(assoc_L (++)).
Qed.

(** If every call fails, and never with a client error, the loop runs
    out of attempts and ends with the error of the last call. *)
Lemma retryLoop_exhausts fuel maxRetries attempt lastErr w :
  (forall w', exists e,
      (FetchDevices env w').1 = inl e /\ isClientError e = false) ->
  0 <= attempt -> maxRetries <= 9223372036 ->
  Z.of_nat (S fuel) + attempt = maxRetries + 1 ->
  exists es w_last e,
    retryLoop env (S fuel) maxRetries attempt lastErr w
    = (inl (Some e), (FetchDevices env w_last).2)
    /\ (FetchDevices env w_last).1 = inl e
    /\ trace (FetchDevices env w_last).2 = trace w ++ es
    /\ policyEvents es = schedule (S fuel) attempt.
Proof.
  intros Hfail. revert attempt lastErr w.
  induction fuel as [|fuel IH]; intros attempt lastErr w Hpos Hmax Hinv.
  - rewrite retryLoop_round by lia. cbv zeta.
    destruct (Hfail (slept attempt w)) as (e & He & Hce).
    destruct (FetchDevices_frame (slept attempt w)) as (es1 & Htr1 & Hp1).
    exists ((if 0 <? attempt then [EvSleep (attempt * Second)] else [])
            ++ es1), (slept attempt w), e.
    rewrite He, Hce. cbn [retryLoop ret].
    rewrite Htr1, slept_trace, <- (assoc_L (++)) by (unfold Second; lia).
    split_and!; [done..|].
    rewrite policyEvents_app, Hp1. cbn [schedule].
    by destruct (0 <? attempt).
  - rewrite retryLoop_round by lia. cbv zeta.
    destruct (Hfail (slept attempt w)) as (e & He & Hce).
    destruct (FetchDevices_frame (slept attempt w)) as (es1 & Htr1 & Hp1).
    rewrite He, Hce, wrap64_small by lia.
    destruct (IH (attempt + 1) (Some e)
                (FetchDevices env (slept attempt w)).2)
      as (es2 & w_last & e' & Hrun & He' & Htr2 & Hp2); [lia..|].
    exists ((if 0 <? attempt then [EvSleep (attempt * Second)] else [])
            ++ es1 ++ es2), w_last, e'.
    split_and!; [done..| |].
    + rewrite Htr2, Htr1, slept_trace by (unfold Second; lia).
      by rewrite <- !(assoc_L (++)).
    + rewrite !policyEvents_app, Hp1, Hp2.
      change (schedule (S (S fuel)) attempt)
        with ((if 0 <? attempt then [EvSleep (attempt * Second)] else [])
              ++ EvCall FnFetchDevices :: schedule (S fuel) (attempt + 1)).
      by destruct (0 <? attempt).
Qed.

End RetryFacts.

Lemma countb_policy (p : Event -> bool) (t : list Event) :
  (forall e, p e = true -> isFetchCall e || isSleep e = true) ->
  countb p (policyEvents t) = countb p t.
Proof.
  intros Hp. unfold countb, policyEvents.
  induction t as [|e t IH]; [done|]. simpl.
  destruct (isFetchCall e || isSleep e) eqn:He; simpl.
  - destruct (p e); simpl; by rewrite IH.
  - destruct (p e) eqn:Hpe; [|done]. apply Hp in Hpe. congruence.
Qed.

Lemma FetchDevicesWithRetry_run (env : Env) (maxRetries : Z) (w : World) :
  FetchDevicesWithRetry env maxRetries w
  = let loop := retryLoop env (Z.to_nat (maxRetries + 1)) maxRetries 0 None w in
    (match loop.1 with
     | inr response => inr response
     | inl lastErr =>
         inl (Errorf_w ("failed after " +:+ pretty (wrap64 (maxRetries + 1))
                          +:+ " attempts") lastErr)
     end, loop.2).
Proof.
  unfold FetchDevicesWithRetry, bind, ret. cbv zeta.
  by destruct (retryLoop env _ _ _ _ _) as [[lastErr|response] w'].
Qed.

(** C2: for [0 <= maxRetries] (and below the point where the sleep time, in
    nanoseconds, leaves 64 bits), a run of [FetchDevicesWithRetry]
    - makes at least one and at most [maxRetries + 1] calls of
      [FetchDevices], attempt number [k > 0] being preceded by a sleep of
      [k] seconds;
    - if every call fails, and none with a client error, makes exactly
      [maxRetries + 1] calls and returns the error of the last call wrapped
      in "failed after [maxRetries + 1] attempts";
    - ends at once, in any round, when the call of that round fails with an
      [APIError] of status 400 to 499;
    - so makes exactly one call, and does not sleep, when the first call
      fails with such an error. *)
Theorem FetchDevicesWithRetry_policy (env : Env) (maxRetries : Z) (w : World) :
  0 <= maxRetries <= 9223372036 ->
  let out := FetchDevicesWithRetry env maxRetries w in
  let attempts := "failed after " +:+ pretty (maxRetries + 1) +:+ " attempts" in
  (exists es n,
     trace out.2 = trace w ++ es
     /\ policyEvents es = schedule n 0
     /\ countb isFetchCall es = n
     /\ 1 <= Z.of_nat n <= maxRetries + 1)
  /\ ((forall w', exists e,
          (FetchDevices env w').1 = inl e /\ isClientError e = false) ->
      exists es w_last e,
        trace out.2 = trace w ++ es
        /\ policyEvents es = schedule (Z.to_nat (maxRetries + 1)) 0
        /\ countb isFetchCall es = Z.to_nat (maxRetries + 1)
        /\ FetchDevices env w_last = (inl e, out.2)
        /\ out.1 = inl (wrapError attempts e))
  /\ (forall fuel attempt lastErr w' e,
        0 <= attempt <= maxRetries ->
        (FetchDevices env (slept attempt w')).1 = inl e ->
        isClientError e = true ->
        retryLoop env (S fuel) maxRetries attempt lastErr w'
        = (inl (Some e), (FetchDevices env (slept attempt w')).2))
  /\ (forall e,
        (FetchDevices env w).1 = inl e -> isClientError e = true ->
        out = (inl (wrapError attempts e), (FetchDevices env w).2)
        /\ countb isFetchCall (trace out.2) = S (countb isFetchCall (trace w))
        /\ countb isSleep (trace out.2) = countb isSleep (trace w)).
Proof.
  intros Hmax out attempts. subst out attempts.
  rewrite FetchDevicesWithRetry_run. cbv zeta. cbn [fst snd].
  rewrite (wrap64_small (maxRetries + 1)) by lia.
  assert (Z.to_nat (maxRetries + 1) = S (Z.to_nat maxRetries)) as Hfuel by lia.
  split_and!.
  - destruct (retryLoop_schedule env (Z.to_nat (maxRetries + 1)) maxRetries 0
                None w) as (es & n & Htr & Hp & Hn & Hn0); [lia..|].
    exists es, n. split_and!; [done..| | |lia].
    + by rewrite <- (countb_policy isFetchCall es), Hp, countb_schedule
        by (by intros [[]| |]).
    + specialize (Hn0 ltac:(lia)). lia.
  - intros Hfail. rewrite Hfuel.
    destruct (retryLoop_exhausts env (Z.to_nat maxRetries) maxRetries 0 None w
                Hfail) as (es & w_last & e & Hrun & He & Htr & Hp); [lia..|].
    exists es, w_last, e. rewrite Hrun. cbn [fst snd Errorf_w].
    split_and!; [done..| | |done].
    + by rewrite <- (countb_policy isFetchCall es), Hp, countb_schedule
        by (by intros [[]| |]).
    + rewrite <- He. by destruct (FetchDevices env w_last).
  - intros fuel attempt lastErr w' e Hattempt He Hce.
    rewrite retryLoop_round by lia. cbv zeta. by rewrite He, Hce.
  - intros e He Hce. rewrite Hfuel, retryLoop_round by lia. cbv zeta.
    change (slept 0 w) with w. rewrite He, Hce. cbn [fst snd Errorf_w].
    split; [done|].
    destruct (FetchDevices_frame env w) as (es & -> & Hp).
    rewrite !countb_app.
    rewrite <- (countb_policy isFetchCall es) by (by intros [[]| |]).
    rewrite <- (countb_policy isSleep es) by (by intros [[]| |]).
    rewrite Hp. change (countb isFetchCall [_]) with 1%nat.
    change (countb isSleep [_]) with 0%nat. lia.
Qed.

Lemma env_503_always_fails (w : World) :
  exists e, (FetchDevices (env_status 503) w).1 = inl e
            /\ isClientError e = false.
Proof.
  rewrite FetchDevices_run. cbv zeta.
  destruct (negb (authenticated (ac w))); [by eexists|].
  rewrite makeDevicesRequest_run. cbv zeta. cbn. by eexists.
Qed.

Lemma FetchDevicesWithRetry_policy_witness :
  0 <= 2 <= 9223372036
  /\ (exists es n,
        trace (FetchDevicesWithRetry (env_status 503) 2 logged_in_world).2
        = trace logged_in_world ++ es
        /\ policyEvents es = schedule n 0
        /\ countb isFetchCall es = n
        /\ 1 <= Z.of_nat n <= 2 + 1)
  /\ (exists es w_last e,
        trace (FetchDevicesWithRetry (env_status 503) 2 logged_in_world).2
        = trace logged_in_world ++ es
        /\ policyEvents es = schedule (Z.to_nat (2 + 1)) 0
        /\ countb isFetchCall es = Z.to_nat (2 + 1)
        /\ FetchDevices (env_status 503) w_last
           = (inl e,
              (FetchDevicesWithRetry (env_status 503) 2 logged_in_world).2)
        /\ (FetchDevicesWithRetry (env_status 503) 2 logged_in_world).1
           = inl (wrapError ("failed after " +:+ pretty (2 + 1) +:+ " attempts")
                    e)).
Proof.
  split; [lia|]. split.
  - apply (proj1 (FetchDevicesWithRetry_policy (env_status 503) 2
                    logged_in_world ltac:(lia))).
  - apply (proj1 (proj2 (FetchDevicesWithRetry_policy (env_status 503) 2
                           logged_in_world ltac:(lia)))).
    exact env_503_always_fails.
Defined.

(** The two scenarios of the specification: a server that always answers
    503, with two retries, is called three times, after sleeps of one and
    two seconds; a server that answers 404 is called once. *)
Example retry_503 :
  policyEvents (trace (FetchDevicesWithRetry (env_status 503) 2
                         logged_in_world).2)
  = [EvCall FnFetchDevices; EvSleep (1 * Second); EvCall FnFetchDevices;
     EvSleep (2 * Second); EvCall FnFetchDevices]
  /\ (FetchDevicesWithRetry (env_status 503) 2 logged_in_world).1
     = inl (wrapError "failed after 3 attempts"
              (APIError 503 "body"
                 "https://mgmt.local/api/v2/ListPhysicalDevices")).
Proof. split; vm_compute; reflexivity. Qed.

Example retry_404 :
  policyEvents (trace (FetchDevicesWithRetry (env_status 404) 2
                         logged_in_world).2)
  = [EvCall FnFetchDevices]
  /\ (FetchDevicesWithRetry (env_status 404) 2 logged_in_world).1
     = inl (wrapError "failed after 3 attempts"
              (APIError 404 "body"
                 "https://mgmt.local/api/v2/ListPhysicalDevices")).
Proof. split; vm_compute; reflexivity. Qed.

Lemma FetchDevices_reauthenticates_witness :
  authenticated (ac logged_in_world) = true
  /\ resp_StatusCode (plain_response 401 []) = StatusUnauthorized
  /\ countb isLoginCall (trace (FetchDevices env_expired logged_in_world).2)
     = S (countb isLoginCall (trace logged_in_world)).
Proof.
  split; [reflexivity|]. split; [reflexivity|].
  exact (proj1 (proj2 (proj2
    (FetchDevices_reauthenticates env_expired logged_in_world
       (plain_response 401 []) eq_refl eq_refl eq_refl eq_refl)))).
Defined.

(** The scenario of the specification: 401, then 200. *)
Example reauth_401_then_200 :
  (FetchDevices env_expired logged_in_world).1 = inr (fetched [node_a])
  /\ authenticated (ac (FetchDevices env_expired logged_in_world).2) = true
  /\ countb isLoginCall (trace (FetchDevices env_expired logged_in_world).2)
     = 1%nat
  /\ countb isDevicesRequest
       (trace (FetchDevices env_expired logged_in_world).2) = 2%nat.
Proof. split_and!; vm_compute; reflexivity. Qed.

(* ===================================================================== *)
(** * Properties of the display manager *)
(* ===================================================================== *)

Section RenderFacts.
Variable Format : Time -> string.

Lemma Repeat_border_ok dm : 2 <= termWidth dm -> Repeat_border dm = Some tt.
Proof.
  intros H. unfold Repeat_border.
  by destruct (Z.ltb_spec (termWidth dm - 2) 0); [lia|].
Qed.

Lemma renderDeviceGroups_ok data st :
  2 <= termWidth st.1 ->
  renderDeviceGroups data st
  = Some (printed (blockLines (snapshot_block data)) (snapshot_block data) st).
Proof.
  intros H. unfold renderDeviceGroups, snapshot_block, renderMessage.
  destruct (LogicalDeviceGroups data) as [|g [|g' gs]] eqn:Hg;
    cbn [blockLines]; rewrite ?Hg; [done..|].
  by rewrite Repeat_border_ok.
Qed.

(** With fewer than two columns [Render] panics, in [renderHeader]. *)
Lemma Render_panics dm data err :
  termWidth dm < 2 -> Render Format dm data err = None.
Proof.
  intros Hw. unfold Render, renderHeader, Repeat_border, ClearScreen.
  cbn [fst snd termWidth].
  assert ((termWidth dm - 2 <? 0) = true) as Hb by (apply Z.ltb_lt; lia).
  destruct err; cbn [termWidth]; by rewrite Hb.
Qed.

(** With two columns or more [Render] returns: the fields other than
    [lastData], [errorMessage] and [linesDrawn] are as before, and the
    screen is the header, the body and the footer. *)
Lemma Render_run dm data err :
  2 <= termWidth dm ->
  let msg := match err with Some e => Error e | None => EmptyString end in
  let last := match err with Some _ => lastData dm | None => data end in
  let blocks :=
    [DrawClear;
     DrawHeader (if ShowTimestamp (dm_config dm)
                 then Some (match last with
                            | Some d => TotalDevices d
                            | None => 0
                            end)
                 else None)]
    ++ body_blocks Format msg last data
    ++ [DrawFooter (negb (String.eqb msg EmptyString))] in
  Render Format dm data err
  = Some ({| dm_config := dm_config dm; lastData := last;
             errorMessage := msg; termWidth := termWidth dm;
             termHeight := termHeight dm; startRow := startRow dm;
             linesDrawn := foldr (fun b n => blockLines b + n) 0 blocks |},
          blocks).
Proof.
  intros Hw msg last blocks. unfold Render, ClearScreen. cbn [fst snd].
  set (dm1 := match err with Some _ => _ | None => _ end).
  assert (dm1 = {| dm_config := dm_config dm; lastData := last;
                   errorMessage := msg; termWidth := termWidth dm;
                   termHeight := termHeight dm; startRow := startRow dm;
                   linesDrawn := 0 |}) as -> by (by destruct err).
  unfold renderHeader. rewrite Repeat_border_ok by done.
  cbn [mbind option_bind fst snd lastData dm_config].
  unfold blocks, body_blocks.
  destruct (negb (String.eqb msg EmptyString)) eqn:Hmsg.
  - cbn [fst snd errorMessage printed]. rewrite Hmsg.
    unfold renderError. rewrite Repeat_border_ok by done.
    cbn [mbind option_bind fst snd lastData errorMessage printed].
    destruct last as [l|].
    + unfold renderSubheader. cbn [mbind option_bind].
      rewrite renderDeviceGroups_ok by done. cbn [mbind option_bind].
      unfold renderFooter. rewrite Repeat_border_ok by done.
      cbn [mbind option_bind fst snd errorMessage printed]. rewrite Hmsg.
      unfold printed. cbn. do 3 f_equal. lia.
    + cbn [mbind option_bind].
      unfold renderFooter. rewrite Repeat_border_ok by done.
      cbn [mbind option_bind fst snd errorMessage printed]. rewrite Hmsg.
      unfold printed. cbn. do 3 f_equal.
  - cbn [fst snd errorMessage printed]. rewrite Hmsg.
    destruct data as [d|].
    + rewrite renderDeviceGroups_ok by done. cbn [mbind option_bind].
      unfold renderFooter. rewrite Repeat_border_ok by done.
      cbn [mbind option_bind fst snd errorMessage printed]. rewrite Hmsg.
      unfold printed. cbn. do 3 f_equal. lia.
    + unfold renderMessage. cbn [mbind option_bind].
      unfold renderFooter. rewrite Repeat_border_ok by done.
      cbn [mbind option_bind fst snd errorMessage printed]. rewrite Hmsg.
      unfold printed. cbn. do 3 f_equal.
Qed.

(** A [Render] that returns has replaced [lastData] exactly when it was
    given no error. *)
Lemma Render_lastData dm data err st :
  Render Format dm data err = Some st ->
  lastData st.1 = match err with
                  | Some _ => lastData dm
                  | None => data
                  end.
Proof.
  destruct (Z.lt_ge_cases (termWidth dm) 2) as [Hw|Hw].
  { by rewrite Render_panics. }
  rewrite (Render_run dm data err Hw). by intros [= <-].
Qed.

(** Failed renders, however many, leave the snapshot alone. *)
Lemma renders_failed dm calls dm' :
  Forall (fun call => call.2 <> None) calls ->
  renders Format dm calls = Some dm' ->
  lastData dm' = lastData dm.
Proof.
  intros Hfailed. revert dm.
  induction Hfailed as [|[data err] calls Herr _ IH]; intros dm; simpl.
  { by intros [= <-]. }
  destruct (Render Format dm data err) as [st|] eqn:Hst; simpl; [|done].
  intros Hrest. rewrite (IH _ Hrest).
  rewrite (Render_lastData _ _ _ _ Hst). by destruct err.
Qed.

(** On a screen at least two columns wide, no sequence of renders
    panics. *)
Lemma renders_return dm calls :
  2 <= termWidth dm -> is_Some (renders Format dm calls).
Proof.
  revert dm. induction calls as [|[data err] calls IH]; intros dm Hw; simpl.
  { done. }
  rewrite (Render_run dm data err Hw). simpl. by apply IH.
Qed.

End RenderFacts.

(** C7, as stated, fails: an error whose message is empty is not told from
    no error, so the call shows neither the banner nor the retained
    snapshot, which it still retains. *)
Lemma Render_empty_message_hides_snapshot :
  exists dm',
    Render sample_Format sample_display None (Some (errorString EmptyString))
    = Some (dm', [DrawClear; DrawHeader (Some 3);
                  DrawMessage "Waiting for data..."; DrawFooter false])
    /\ lastData dm' = Some sample_snapshot.
Proof. eexists. split; vm_compute; reflexivity. Qed.

(** C7, amended: on a screen at least two columns wide, a [Render] call
    given an error returns and leaves the retained snapshot ([lastData],
    and with it the snapshot's timestamp) unchanged; when the message of
    the error is not empty and there is a snapshot, the call shows the
    snapshot beneath the error banner, under a line that carries the
    snapshot's own timestamp.  [lastData] is replaced by a call given no
    error and by no other call, so after any sequence of failed renders it
    is still the snapshot of the last successful one. *)
Theorem Render_retains_snapshot (Format : Time -> string)
    (dm : DisplayManager) (data : option GroupedDevices) (e : error) :
  2 <= termWidth dm ->
  exists st,
    Render Format dm data (Some e) = Some st
    /\ lastData st.1 = lastData dm
    /\ (Error e <> EmptyString ->
        forall last,
          lastData dm = Some last ->
          exists header,
            st.2 = [DrawClear; DrawHeader header; DrawError (Error e);
                    DrawSubheader ("Last known data (from "
                                     +:+ Format (LastUpdated last) +:+ "):");
                    snapshot_block last; DrawFooter true])
    /\ (forall data' err' st',
          Render Format dm data' err' = Some st' ->
          lastData st'.1 = match err' with
                           | Some _ => lastData dm
                           | None => data'
                           end)
    /\ (forall calls,
          Forall (fun call => call.2 <> None) calls ->
          exists dm',
            renders Format dm calls = Some dm'
            /\ lastData dm' = lastData dm).
Proof.
  intros Hw. eexists.
  split; [apply (Render_run Format dm data (Some e) Hw)|].
  cbn [fst snd lastData]. split; [done|]. split_and!.
  - intros Hmsg last ->. unfold body_blocks.
    apply String.eqb_neq in Hmsg. rewrite Hmsg. cbn [negb].
    eexists. reflexivity.
  - intros data' err' st'. apply Render_lastData.
  - intros calls Hfailed.
    destruct (renders_return Format dm calls Hw) as [dm' Hdm'].
    exists dm'. split; [done|]. by eapply renders_failed.
Qed.

Lemma Render_retains_snapshot_witness :
  2 <= termWidth sample_display
  /\ Error sample_failure <> EmptyString
  /\ exists st,
       Render sample_Format sample_display None (Some sample_failure) = Some st
       /\ lastData st.1 = Some sample_snapshot
       /\ exists header,
            st.2 = [DrawClear; DrawHeader header;
                    DrawError (Error sample_failure);
                    DrawSubheader "Last known data (from 1700000000):";
                    DrawDeviceGroups sample_snapshot; DrawFooter true].
Proof.
  assert (2 <= termWidth sample_display) as Hw by (vm_compute; discriminate).
  assert (Error sample_failure <> EmptyString) as Hmsg
    by (vm_compute; discriminate).
  split; [exact Hw|]. split; [exact Hmsg|].
  destruct (Render_retains_snapshot sample_Format sample_display None
              sample_failure Hw) as (st & Hst & Hlast & Hscreen & _).
  exists st. split; [exact Hst|]. split; [exact Hlast|].
  exact (Hscreen Hmsg sample_snapshot eq_refl).
Defined.
